(** * A products REST API: router, validation rules and request handlers

    Shallow embedding of [src/router.ts] (the six routes of the products
    router, each a list of middlewares) and of the six request handlers of
    [handlers/product.ts] ([getProducts], [getProductById], [createProduct],
    [updateProduct], [updateAvailability], [deleteProduct]), followed by the
    properties of the request/response behaviour.

    Layout:
    - JavaScript values, as far as request bodies carry them;
    - the string validators of validator.js used by the routes;
    - express-validator chains ([param], [body], [withMessage], ...);
    - the store: one table of products, reached through the ORM calls the
      handlers make ([findAll], [findByPk], [create], [update], [save],
      [destroy]), in a state-and-error monad;
    - the handlers, the router and its dispatch;
    - the theorems.

    Scope.  The fields of a request body are JSON scalars; the requests
    are those that reach the router (the [cors] middleware that
    [server.ts] mounts before it ends every [OPTIONS] request itself); the
    keys of the table are the values of a 32-bit integer column. *)

From stdpp Require Import base option list sorting strings gmap fin_maps pretty.
From Stdlib Require Import ZArith Ascii.

Open Scope Z_scope.

(** ** JavaScript numbers

    A JavaScript number is an IEEE-754 double.  The handlers and the rules
    use numbers through three operations only, and the development is
    parametric in them: printing ([String(n)]), the comparison [n > 0],
    and the reading of a string as a number (JavaScript's [ToNumber], which
    is also how the store reads a numeric string; [None] stands for NaN). *)
Class JSNumber := {
  number : Type;
  num_toString : number → string;
  num_gt_zero : number → bool;
  str_to_number : string → option number
}.

(** ** Characters and numerals *)

Definition is_digit (c : ascii) : bool :=
  let n := nat_of_ascii c in (48 <=? n)%nat && (n <=? 57)%nat.

Definition is_sign (c : ascii) : bool :=
  bool_decide (c = "+"%char) || bool_decide (c = "-"%char).

Fixpoint all_digits (s : string) : bool :=
  match s with
  | EmptyString => true
  | String c r => is_digit c && all_digits r
  end.

(** [[0-9]+] *)
Definition digits1 (s : string) : bool :=
  match s with
  | EmptyString => false
  | String _ _ => all_digits s
  end.

(** the text after an optional leading sign, [[+-]?] *)
Definition strip_sign (s : string) : string :=
  match s with
  | String c r => if is_sign c then r else s
  | EmptyString => s
  end.

(** the text after the longest prefix of digits, [[0-9]*] *)
Fixpoint drop_digits (s : string) : string :=
  match s with
  | String c r => if is_digit c then drop_digits r else s
  | EmptyString => s
  end.

Definition digit_value (c : ascii) : Z := Z.of_nat (nat_of_ascii c) - 48.

Fixpoint digits_value (acc : Z) (s : string) : Z :=
  match s with
  | EmptyString => acc
  | String c r => digits_value (10 * acc + digit_value c) r
  end.

(** A signed decimal numeral read as an integer; [None] for any other text. *)
Definition parse_int (s : string) : option Z :=
  let t := strip_sign s in
  if digits1 t then
    match s with
    | String "-"%char _ => Some (- digits_value 0 t)
    | _ => Some (digits_value 0 t)
    end
  else None.

(** The numbers of the examples: integers, printed in decimal; a string
    denotes a number when it is a signed decimal numeral. *)
Definition Z_number : JSNumber := {|
  number := Z;
  num_toString := pretty;
  num_gt_zero := λ n, bool_decide (0 < n);
  str_to_number := parse_int
|}.

(** ** The key column *)

(** Modelled from the spec: [id] is an integer column
    ([models/Product.model] is missing), and an integer column holds the
    32-bit signed integers, from [INTEGER_MIN] to [INTEGER_MAX]. *)
Definition INTEGER_MIN : Z := -2147483648.

Definition INTEGER_MAX : Z := 2147483647.

(** The integers that can be keys.  An integer outside this range is not
    a key: the store rejects a query that compares the key column with it,
    and a row that would carry it. *)
Definition in_integer_range (k : Z) : Prop := INTEGER_MIN ≤ k ≤ INTEGER_MAX.

Global Instance in_integer_range_dec k : Decision (in_integer_range k).
Proof. unfold in_integer_range. apply _. Defined.

(** A proof of [b = true] that is [eq_refl] as soon as [b] is evaluated. *)
Definition evaluated (b : bool) (H : b = true) : b = true :=
  match b as b' return b' = true → b' = true with
  | true => λ _, eq_refl
  | false => λ H', H'
  end H.

(** ** validator.js

    The validators behind express-validator's [isInt], [isNumeric],
    [isEmpty] and [isBoolean], with their default options. *)
Module Validator.

(** [/^[-+]?[0-9]+$/] (leading zeroes are allowed by default) *)
Definition isInt (s : string) : bool := digits1 (strip_sign s).

(** [/^[+-]?([0-9]*[.])?[0-9]+$/] *)
Definition isNumeric (s : string) : bool :=
  let t := strip_sign s in
  digits1 t ||
  match drop_digits t with
  | String "."%char frac => digits1 frac
  | _ => false
  end.

(** [str.length === 0] *)
Definition isEmpty (s : string) : bool :=
  match s with EmptyString => true | _ => false end.

(** [['true', 'false', '1', '0'].includes(str)] *)
Definition isBoolean (s : string) : bool :=
  bool_decide (s ∈ ["true"; "false"; "1"; "0"]).

End Validator.

(** ** JavaScript values and the store's data *)

Section Server.
Context `{JS : JSNumber}.

(** The values a JSON request body gives to its fields: the scalars (the
    fields of a product are scalars; arrays and nested objects are left
    out).  A field that is missing reads as [undefined], written [None]
    where a field is read. *)
Inductive JValue :=
  | JNull
  | JBool (b : bool)
  | JNum (n : number)
  | JStr (s : string).

(** express-validator hands [toString(value)] to the string validators:
    the empty string for [undefined] and [null], [String(value)] for the
    other scalars. *)
Definition toString (value : option JValue) : string :=
  match value with
  | None | Some JNull => ""
  | Some (JBool true) => "true"
  | Some (JBool false) => "false"
  | Some (JNum n) => num_toString n
  | Some (JStr s) => s
  end.

(** JavaScript's [value > 0]: the operand is converted with [ToNumber]
    ([undefined] is NaN, [null] is 0, [true] is 1, [false] is 0). *)
Definition gt_zero (value : option JValue) : bool :=
  match value with
  | None | Some JNull => false
  | Some (JBool b) => b
  | Some (JNum n) => num_gt_zero n
  | Some (JStr s) => from_option num_gt_zero false (str_to_number s)
  end.

(** The request as middlewares and handlers see it: [req.params] (filled in
    by the route that matched) and [req.body] (parsed by [express.json()]). *)
Record Request := {
  req_params : gmap string string;
  req_body : gmap string JValue
}.

(** ** express-validator *)

Inductive Location := in_params | in_body.

Inductive Check :=
  | check_isInt
  | check_isNumeric
  | check_notEmpty
  | check_isBoolean
  | check_custom (f : option JValue → bool).

Record Rule := { check : Check; message : string }.

Record ValidationChain := {
  location : Location;
  path : string;
  rules : list Rule
}.

(** One entry of [validationResult(req).array()]. *)
Record ValidationError := {
  err_location : Location;
  err_path : string;
  err_value : option JValue;
  msg : string
}.

Definition param (field : string) : ValidationChain :=
  {| location := in_params; path := field; rules := [] |}.

Definition body (field : string) : ValidationChain :=
  {| location := in_body; path := field; rules := [] |}.

(** A validator is appended to the chain with the library's default message. *)
Definition add_check (c : Check) (chain : ValidationChain) : ValidationChain :=
  {| location := location chain; path := path chain;
     rules := rules chain ++ [{| check := c; message := "Invalid value" |}] |}.

Definition isInt := add_check check_isInt.
Definition isNumeric := add_check check_isNumeric.
Definition notEmpty := add_check check_notEmpty.
Definition isBoolean := add_check check_isBoolean.
Definition custom (f : option JValue → bool) := add_check (check_custom f).

Fixpoint set_last_message (m : string) (rs : list Rule) : list Rule :=
  match rs with
  | [] => []
  | [r] => [{| check := check r; message := m |}]
  | r :: rs => r :: set_last_message m rs
  end.

(** [.withMessage(m)] sets the message of the validator added last. *)
Definition withMessage (m : string) (chain : ValidationChain) : ValidationChain :=
  {| location := location chain; path := path chain;
     rules := set_last_message m (rules chain) |}.

Definition select_field (loc : Location) (field : string) (req : Request)
  : option JValue :=
  match loc with
  | in_params => JStr <$> req_params req !! field
  | in_body => req_body req !! field
  end.

(** Whether a validator rejects the value.  The standard validators see
    [toString value]; a custom validator sees the value itself and fails
    when its result is falsy; [notEmpty] is [.not().isEmpty()]. *)
Definition fails (c : Check) (value : option JValue) : bool :=
  match c with
  | check_isInt => negb (Validator.isInt (toString value))
  | check_isNumeric => negb (Validator.isNumeric (toString value))
  | check_notEmpty => Validator.isEmpty (toString value)
  | check_isBoolean => negb (Validator.isBoolean (toString value))
  | check_custom f => negb (f value)
  end.

Definition rule_errors (chain : ValidationChain) (value : option JValue) (r : Rule)
  : list ValidationError :=
  if fails (check r) value
  then [{| err_location := location chain; err_path := path chain;
           err_value := value; msg := message r |}]
  else [].

(** Running a chain: every validator of the chain runs (nothing bails out),
    and each one that rejects the value adds its own entry, in chain order. *)
Definition run_chain (chain : ValidationChain) (req : Request)
  : list ValidationError :=
  let value := select_field (location chain) (path chain) req in
  flat_map (rule_errors chain value) (rules chain).

(** ** The store

    The [products] table maps the primary key [id] to the other columns of
    the row; every key is a value of the key column.  [sequence] is the
    next value of the key's auto-increment.  [calls] records, oldest first,
    the ORM calls made so far. *)

(** Modelled from the spec: the columns of a product besides its key
    ([models/Product.model] is missing): the name as text, the price as a
    number, the availability as a boolean. *)
Record Columns := {
  col_name : string;
  col_price : number;
  col_availability : bool
}.

(** Modelled from the spec: a product, with its integer [id]
    ([models/Product.model] is missing).  This is the model instance the
    handlers hold and the responses carry. *)
Record Product := {
  id : Z;
  name : string;
  price : number;
  availability : bool
}.

Definition instance (k : Z) (c : Columns) : Product :=
  {| id := k; name := col_name c; price := col_price c;
     availability := col_availability c |}.

Definition columns (p : Product) : Columns :=
  {| col_name := name p; col_price := price p;
     col_availability := availability p |}.

Inductive Call :=
  | call_findAll
  | call_findByPk (pk : string)
  | call_create (values : gmap string JValue)
  | call_update (pk : Z) (values : gmap string JValue)
  | call_save (pk : Z)
  | call_destroy (pk : Z).

Definition keys_in_range (t : gmap Z Columns) : Prop :=
  map_Forall (λ k _, in_integer_range k) t.

Record World := {
  table : gmap Z Columns;
  sequence : Z;
  calls : list Call;
  table_keys : bool_decide (keys_in_range table) = true
}.

(** The errors of the store: a text that is not an integer numeral where a
    key is wanted, an integer outside the range of the key column, a key
    that is taken, a value that its column does not accept. *)
Inductive StorageError :=
  | invalid_integer_text
  | integer_out_of_range
  | unique_violation
  | type_violation (column : string).

(** The result of awaiting a promise: fulfilled with a value, or rejected. *)
Inductive Settled (A : Type) :=
  | Fulfilled (a : A)
  | Rejected (e : StorageError).
Global Arguments Fulfilled {A} a.
Global Arguments Rejected {A} e.

(** An asynchronous computation against the store.  A rejection stops the
    computation; what was written before it stays written. *)
Definition M (A : Type) : Type := World → World * Settled A.

Definition ret {A} (a : A) : M A := λ w, (w, Fulfilled a).

Definition reject {A} (e : StorageError) : M A := λ w, (w, Rejected e).

Definition bind {A B} (m : M A) (k : A → M B) : M B :=
  λ w, match m w with
       | (w', Fulfilled a) => k a w'
       | (w', Rejected e) => (w', Rejected e)
       end.

Notation "'const' x := 'await' m ;; k" := (bind m (λ x, k))
  (at level 100, m at next level, k at level 200, right associativity).
Notation "'await' m ;; k" := (bind m (λ _, k))
  (at level 100, m at next level, k at level 200, right associativity).

Definition add_call (c : Call) (w : World) : World :=
  {| table := table w; sequence := sequence w; calls := calls w ++ [c];
     table_keys := table_keys w |}.

(** The rows of [t] whose key the key column can hold. *)
Definition storable (t : gmap Z Columns) : gmap Z Columns :=
  filter (λ kc, in_integer_range kc.1) t.

Definition storable_keys (t : gmap Z Columns)
  : bool_decide (keys_in_range (storable t)) = true :=
  evaluated _
    (bool_decide_eq_true_2 _
       (λ k c H, proj2 (proj1 (map_lookup_filter_Some _ t k c) H))).

Global Arguments storable : simpl never.

(** The table becomes [t].  (The handlers write under keys the store has
    handed out or accepted, so every row of [t] is storable.) *)
Definition set_table (t : gmap Z Columns) (w : World) : World :=
  {| table := storable t; sequence := sequence w; calls := calls w;
     table_keys := storable_keys t |}.

Definition log (c : Call) : M unit := λ w, (add_call c w, Fulfilled tt).

Definition get_table : M (gmap Z Columns) := λ w, (w, Fulfilled (table w)).

Definition put_table (t : gmap Z Columns) : M unit :=
  λ w, (set_table t w, Fulfilled tt).

(** [nextval]: the sequence's value is handed out and never handed out again. *)
Definition nextval : M Z :=
  λ w, ({| table := table w; sequence := sequence w + 1; calls := calls w;
           table_keys := table_keys w |},
        Fulfilled (sequence w)).

Definition or_reject {A} (e : StorageError) (o : option A) : M A :=
  match o with
  | Some a => ret a
  | None => reject e
  end.

(** *** Column types

    The model declaration [models/Product.model] is not among the sources;
    the types of the columns and the default of [availability] follow the
    data model of the specification. *)

(** Modelled from the spec: how the store reads a JSON value as a value of
    a column ([models/Product.model] and the database are missing): [name]
    is a text column, [price] a numeric column, [availability] a boolean
    column and [id] the integer key.  [None]: the store rejects the value.
    Which values a column accepts besides those of its own type (a number
    or a boolean as a name, ["no"] as an availability, ...) is the store's
    business and is left open; the laws are what every reading satisfies:
    a text is stored as the value prints; a number is stored as it is, and
    a numeral as a number of the same sign; a boolean is stored as it is;
    a key is in the range of its column, and is the integer the value
    prints as when it prints as an integer numeral. *)
Class ColumnTypes := {
  as_text : JValue → option string;
  as_number : JValue → option number;
  as_boolean : JValue → option bool;
  as_key : JValue → option Z;
  as_text_toString v n :
    as_text v = Some n → n = toString (Some v);
  as_number_JNum n pr :
    as_number (JNum n) = Some pr → pr = n;
  as_number_gt_zero v pr :
    Validator.isNumeric (toString (Some v)) = true →
    as_number v = Some pr → gt_zero (Some v) = num_gt_zero pr;
  as_boolean_JBool b :
    as_boolean (JBool b) = Some b;
  as_key_numeral v k k' :
    as_key v = Some k' → parse_int (toString (Some v)) = Some k → k' = k;
  as_key_range v k :
    as_key v = Some k → in_integer_range k
}.

Context `{CT : ColumnTypes}.

(** Modelled from the spec: [availability] defaults to [true] at creation
    ([models/Product.model] is missing). *)
Definition default_availability : bool := true.

(** *** The ORM calls of the handlers *)

Definition by_id_desc (p q : Product) : Prop := id q ≤ id p.

Global Instance by_id_desc_dec p q : Decision (by_id_desc p q).
Proof. unfold by_id_desc. apply _. Defined.

Definition all_products (t : gmap Z Columns) : list Product :=
  (λ kc, instance kc.1 kc.2) <$> map_to_list t.

(** [Product.findAll({ order: [["id", "DESC"]] })] *)
Definition Product_findAll_order_id_DESC : M (list Product) :=
  await log call_findAll;;
  const t := await get_table;;
  ret (merge_sort by_id_desc (all_products t)).

(** [Product.findByPk(id)]: no query and [null] for an [undefined] key;
    otherwise the query compares the key column with the integer the text
    denotes, which the store rejects when the key column cannot hold that
    integer; the answer is the row under that key. *)
Definition Product_findByPk (pk : option string) : M (option Product) :=
  match pk with
  | None => ret None
  | Some s =>
    await log (call_findByPk s);;
    const k := await or_reject invalid_integer_text (parse_int s);;
    if decide (in_integer_range k) then
      const t := await get_table;;
      ret (instance k <$> t !! k)
    else reject integer_out_of_range
  end.

Definition insert_row (k : Z) (c : Columns) : M Product :=
  if decide (in_integer_range k) then
    const t := await get_table;;
    match t !! k with
    | Some _ => reject unique_violation
    | None => await put_table (<[k := c]> t);; ret (instance k c)
    end
  else reject integer_out_of_range.

(** [Product.create(values)]: the row is built from the fields of [values]
    that are columns of the table; a column that [values] does not give
    takes its default, and the key comes from the sequence when [values]
    gives none. *)
Definition Product_create (values : gmap string JValue) : M Product :=
  await log (call_create values);;
  const n := await or_reject (type_violation "name")
                     (values !! "name" ≫= as_text);;
  const p := await or_reject (type_violation "price")
                     (values !! "price" ≫= as_number);;
  const a := await match values !! "availability" with
                   | None => ret default_availability
                   | Some v =>
                     or_reject (type_violation "availability") (as_boolean v)
                   end;;
  const k := await match values !! "id" with
                   | None | Some JNull => nextval
                   | Some v => or_reject (type_violation "id") (as_key v)
                   end;;
  insert_row k {| col_name := n; col_price := p; col_availability := a |}.

(** The row of an instance is written back; a row that is gone stays gone. *)
Definition write_back (p : Product) : M unit :=
  const t := await get_table;;
  match t !! id p with
  | Some _ => put_table (<[id p := columns p]> t)
  | None => ret tt
  end.

(** [product.save()] *)
Definition product_save (p : Product) : M Product :=
  await log (call_save (id p));;
  await write_back p;;
  ret p.

Definition assign {A} (o : option JValue) (conv : JValue → option A)
    (column : string) (old : A) : M A :=
  match o with
  | None => ret old
  | Some v => or_reject (type_violation column) (conv v)
  end.

(** [product.update(values)]: the columns that [values] gives are set on the
    instance (the key of an existing instance is never reassigned), and the
    instance is saved.  The result is the product as the row now holds it;
    the instance itself keeps the values as they were assigned (see
    [data_updated]). *)
Definition product_update (values : gmap string JValue) (p : Product) : M Product :=
  await log (call_update (id p) values);;
  const n := await assign (values !! "name") as_text "name" (name p);;
  const pr := await assign (values !! "price") as_number "price" (price p);;
  const a := await assign (values !! "availability") as_boolean "availability"
                     (availability p);;
  let p' := {| id := id p; name := n; price := pr; availability := a |} in
  await write_back p';;
  ret p'.

(** [product.destroy()] *)
Definition product_destroy (p : Product) : M unit :=
  await log (call_destroy (id p));;
  const t := await get_table;;
  put_table (delete (id p) t).

(** [product.availability = value] *)
Definition set_availability (value : bool) (p : Product) : Product :=
  {| id := id p; name := name p; price := price p; availability := value |}.

(** ** Responses *)

(** The payloads of the responses.  [data_product p] is [{data: product}]
    for a product read from the store or returned by an insertion.
    [data_updated p values] is [{data: product}] for the instance that
    [update(values)] has written as [p]: no row is read back after an
    update, so the fields that [values] assigns are still on the instance
    as [values] gives them (a price given as ["450"] is shown as ["450"],
    and stored as the number), and the others are those of [p]. *)
Inductive Json :=
  | data_product (p : Product)
  | data_updated (p : Product) (values : gmap string JValue)
  | data_products (ps : list Product)
  | data_text (s : string)
  | error_text (s : string)
  | errors_list (es : list ValidationError).

(** What a handler hands to [res]: the status and the payload.  (For a
    HEAD request the payload is computed and not sent.) *)
Record Response := { status : Z; json : Json }.

(** [res.status(code).json(payload)] *)
Definition res_status_json (code : Z) (payload : Json) : M Response :=
  ret {| status := code; json := payload |}.

(** [res.json(payload)]: the status stays at its default, 200. *)
Definition res_json (payload : Json) : M Response := res_status_json 200 payload.

(** ** The handlers *)

Definition getProducts (req : Request) : M Response :=
  const products := await Product_findAll_order_id_DESC;;
  res_json (data_products products).

Definition getProductById (req : Request) : M Response :=
  let id := req_params req !! "id" in
  const product := await Product_findByPk id;;
  match product with
  | None => res_status_json 404 (error_text "Producto no encontrado")
  | Some product => res_json (data_product product)
  end.

Definition createProduct (req : Request) : M Response :=
  const product := await Product_create (req_body req);;
  res_status_json 201 (data_product product).

Definition updateProduct (req : Request) : M Response :=
  let id := req_params req !! "id" in
  const product := await Product_findByPk id;;
  match product with
  | None => res_status_json 404 (error_text "Producto no encontrado")
  | Some product =>
    const product := await product_update (req_body req) product;;
    const product := await product_save product;;
    res_json (data_updated product (req_body req))
  end.

Definition updateAvailability (req : Request) : M Response :=
  let id := req_params req !! "id" in
  const product := await Product_findByPk id;;
  match product with
  | None => res_status_json 404 (error_text "Producto no encontrado")
  | Some product =>
    let product := set_availability (negb (availability product)) product in
    const product := await product_save product;;
    res_json (data_product product)
  end.

Definition deleteProduct (req : Request) : M Response :=
  let id := req_params req !! "id" in
  const product := await Product_findByPk id;;
  match product with
  | None => res_status_json 404 (error_text "Producto no encontrado")
  | Some product =>
    await product_destroy product;;
    res_json (data_text "Producto Eliminado")
  end.

(** ** The router *)

(** The methods of the requests that reach the router: the five the
    router registers routes for, and HEAD, which Express serves with the
    routes registered for GET.  (An OPTIONS request is ended by [cors]
    before the router; a request with any other method finds no route.) *)
Inductive Method := GET | POST | PUT | PATCH | DELETE | HEAD.

Global Instance Method_eq_dec : EqDecision Method.
Proof. solve_decision. Defined.

(** The two path patterns of the router: ["/"] and ["/:id"]. *)
Inductive Pattern := path_root | path_id.

(** The three kinds of middleware the routes stack up: a validation chain,
    which records its entries on the request; a middleware that reads the
    entries recorded so far and either responds or calls [next()]; and a
    handler. *)
Inductive Middleware :=
  | validate (chain : ValidationChain)
  | on_validation_result (f : list ValidationError → option Response)
  | handle (h : Request → M Response).

(** Modelled from the spec: the [middleware] module, which defines
    [handleInputErrors], is not among the sources.  When one or more rules
    failed, the request is rejected before the handler runs: the response
    carries status 400 and the ordered entries, one per failed rule.
    Otherwise the next middleware runs. *)
Definition handleInputErrors : Middleware :=
  on_validation_result
    (λ errors, match errors with
               | [] => None
               | _ :: _ => Some {| status := 400; json := errors_list errors |}
               end).

Record Route := {
  route_method : Method;
  route_path : Pattern;
  stack : list Middleware
}.

Notation "c |> f" := (f c) (at level 45, left associativity, only parsing).

(** [router.get("/", getProducts)] *)
Definition get_products_route : Route :=
  {| route_method := GET; route_path := path_root;
     stack := [handle getProducts] |}.

(** [router.get("/:id", ...)] *)
Definition get_product_route : Route :=
  {| route_method := GET; route_path := path_id;
     stack := [
       validate (param "id" |> isInt |> withMessage "ID no valido");
       handleInputErrors;
       handle getProductById] |}.

(** [router.post("/", ...)] *)
Definition post_product_route : Route :=
  {| route_method := POST; route_path := path_root;
     stack := [
       validate (body "name"
                 |> notEmpty
                 |> withMessage "El nombre del producto no puede ir vacio");
       validate (body "price"
                 |> isNumeric
                 |> withMessage "Valor no válido"
                 |> notEmpty
                 |> withMessage "El nombre del producto no puede ir vacio"
                 |> custom (λ value, gt_zero value)
                 |> withMessage "Precio no valido");
       handleInputErrors;
       handle createProduct] |}.

(** [router.put("/:id", ...)] *)
Definition put_product_route : Route :=
  {| route_method := PUT; route_path := path_id;
     stack := [
       validate (param "id" |> isInt |> withMessage "ID no valido");
       validate (body "name"
                 |> notEmpty
                 |> withMessage "El nombre del producto no puede ir vacio");
       validate (body "price"
                 |> isNumeric
                 |> withMessage "Valor no válido"
                 |> notEmpty
                 |> withMessage "El nombre del producto no puede ir vacio"
                 |> custom (λ value, gt_zero value)
                 |> withMessage "Precio no valido");
       validate (body "availability"
                 |> isBoolean
                 |> withMessage "El campo no puede ir vacio");
       handleInputErrors;
       handle updateProduct] |}.

(** [router.patch("/:id", ...)] *)
Definition patch_product_route : Route :=
  {| route_method := PATCH; route_path := path_id;
     stack := [
       validate (param "id" |> isInt |> withMessage "ID no valido");
       handleInputErrors;
       handle updateAvailability] |}.

(** [router.delete("/:id", ...)] *)
Definition delete_product_route : Route :=
  {| route_method := DELETE; route_path := path_id;
     stack := [
       validate (param "id" |> isInt |> withMessage "ID no valido");
       handleInputErrors;
       handle deleteProduct] |}.

(** The routes, in the order the source registers them. *)
Definition router : list Route := [
  get_products_route;
  get_product_route;
  post_product_route;
  put_product_route;
  patch_product_route;
  delete_product_route
].

(** Running the middlewares of a route in order.  [errors] are the entries
    the validation chains have recorded on the request so far.  [None]: the
    stack ended without a response. *)
Fixpoint run_stack (ms : list Middleware) (req : Request)
    (errors : list ValidationError) : M (option Response) :=
  match ms with
  | [] => ret None
  | validate chain :: ms => run_stack ms req (errors ++ run_chain chain req)
  | on_validation_result f :: ms =>
    match f errors with
    | None => run_stack ms req errors
    | Some res => ret (Some res)
    end
  | handle h :: _ =>
    const res := await h req;;
    ret (Some res)
  end.

(** A request as it reaches the router: the method, the segments of the URL
    below the mount point [/api/products], and the parsed JSON body. *)
Record HttpRequest := {
  http_method : Method;
  http_path : list string;
  http_body : gmap string JValue
}.

(** The parameters a pattern extracts from the path, when it matches. *)
Definition match_path (p : Pattern) (segments : list string)
  : option (gmap string string) :=
  match p, segments with
  | path_root, [] => Some ∅
  | path_id, [String c s] => Some {[ "id" := String c s ]}
  | _, _ => None
  end.

(** [Route.prototype._handles_method]: a route handles the method it was
    registered for, and a route that was not registered for HEAD handles
    HEAD as it handles GET. *)
Definition handles_method (route : Route) (m : Method) : bool :=
  let name := if decide (m = HEAD ∧ route_method route ≠ HEAD) then GET else m in
  bool_decide (route_method route = name).

(** The routes are tried in the order they were registered; the first one
    whose method and path match and whose stack responds answers. *)
Fixpoint dispatch (routes : list Route) (r : HttpRequest) : M (option Response) :=
  match routes with
  | [] => ret None
  | route :: routes =>
    if handles_method route (http_method r) then
      match match_path (route_path route) (http_path r) with
      | Some ps =>
        const res := await run_stack (stack route)
                       {| req_params := ps; req_body := http_body r |} [];;
        match res with
        | Some res => ret (Some res)
        | None => dispatch routes r
        end
      | None => dispatch routes r
      end
    else dispatch routes r
  end.

(** [server.use("/api/products", router)] *)
Definition server (r : HttpRequest) : M (option Response) := dispatch router r.

(** ** Vocabulary of the statements *)

(** The entry a route's [param("id")] rule records for a rejected [id]. *)
Definition invalid_id_entry (segment : string) : ValidationError :=
  {| err_location := in_params; err_path := "id";
     err_value := Some (JStr segment); msg := "ID no valido" |}.

(** The chains of a route that validate fields of the body. *)
Definition body_chains (route : Route) : list ValidationChain :=
  flat_map (λ m, match m with
                 | validate chain =>
                   match location chain with
                   | in_body => [chain]
                   | in_params => []
                   end
                 | _ => []
                 end) (stack route).

(** The entries the body rules of a route record for a body. *)
Definition body_errors (route : Route) (b : gmap string JValue)
  : list ValidationError :=
  flat_map (λ chain, run_chain chain {| req_params := ∅; req_body := b |})
           (body_chains route).

(** The row of a product whose availability has been flipped. *)
Definition toggle (c : Columns) : Columns :=
  {| col_name := col_name c; col_price := col_price c;
     col_availability := negb (col_availability c) |}.

(** The answer of every handler that finds no row under the key. *)
Definition not_found : Response :=
  {| status := 404; json := error_text "Producto no encontrado" |}.

(** An entry recorded for a field of the body that the request does not give. *)
Definition missing_field_entry (field message : string) : ValidationError :=
  {| err_location := in_body; err_path := field;
     err_value := None; msg := message |}.

(** ** Vocabulary of the further statements *)

(** Whether a route of the router matches the method and the path. *)
Definition route_matches (route : Route) (r : HttpRequest) : Prop :=
  handles_method route (http_method r) = true
  ∧ is_Some (match_path (route_path route) (http_path r)).

(** The column a field of the values is converted for, or the old value
    when the values do not give the field. *)
Definition assigned {A} (o : option JValue) (conv : JValue → option A) (old : A)
  : option A :=
  match o with
  | None => Some old
  | Some v => conv v
  end.

(** The row a full update writes over [c], when every field given reads as
    a value of its column. *)
Definition replaced_columns (values : gmap string JValue) (c : Columns)
  : option Columns :=
  n ← assigned (values !! "name") as_text (col_name c);
  p ← assigned (values !! "price") as_number (col_price c);
  a ← assigned (values !! "availability") as_boolean (col_availability c);
  Some {| col_name := n; col_price := p; col_availability := a |}.

(** The world a request leaves behind when it has made the calls [cs] and
    left the table [t]. *)
Definition after (t : gmap Z Columns) (cs : list Call) (w : World) : World :=
  {| table := storable t; sequence := sequence w; calls := calls w ++ cs;
     table_keys := storable_keys t |}.

(** The ways the router serves a request: [Serves r w w' out] relates a
    request and the world it meets to the world it leaves and the outcome.
    One rule per path through the middlewares and the handlers. *)
Inductive Serves : HttpRequest → World → World → Settled (option Response) → Prop :=
  | serves_unrouted r w :
      (∀ route, route ∈ router → ¬ route_matches route r) →
      Serves r w w (Fulfilled None)
  | serves_list m b w :
      m = GET ∨ m = HEAD →
      Serves {| http_method := m; http_path := []; http_body := b |} w
        (add_call call_findAll w)
        (Fulfilled (Some {| status := 200;
                            json := data_products
                              (merge_sort by_id_desc (all_products (table w))) |}))
  | serves_invalid_id m segment b w :
      m ≠ POST → segment ≠ "" → Validator.isInt segment = false →
      Serves {| http_method := m; http_path := [segment]; http_body := b |} w w
        (Fulfilled (Some {| status := 400;
                            json := errors_list
                              (invalid_id_entry segment
                               :: if decide (m = PUT)
                                  then body_errors put_product_route b else []) |}))
  | serves_invalid_post b w e es :
      body_errors post_product_route b = e :: es →
      Serves {| http_method := POST; http_path := []; http_body := b |} w w
        (Fulfilled (Some {| status := 400; json := errors_list (e :: es) |}))
  | serves_invalid_put segment k b w e es :
      parse_int segment = Some k →
      body_errors put_product_route b = e :: es →
      Serves {| http_method := PUT; http_path := [segment]; http_body := b |} w w
        (Fulfilled (Some {| status := 400; json := errors_list (e :: es) |}))
  | serves_out_of_range m segment k b w :
      m ≠ POST →
      parse_int segment = Some k →
      (m = PUT → body_errors put_product_route b = []) →
      ¬ in_integer_range k →
      Serves {| http_method := m; http_path := [segment]; http_body := b |} w
        (add_call (call_findByPk segment) w)
        (Rejected integer_out_of_range)
  | serves_not_found m segment k b w :
      m ≠ POST →
      parse_int segment = Some k →
      (m = PUT → body_errors put_product_route b = []) →
      in_integer_range k →
      table w !! k = None →
      Serves {| http_method := m; http_path := [segment]; http_body := b |} w
        (add_call (call_findByPk segment) w)
        (Fulfilled (Some {| status := 404;
                            json := error_text "Producto no encontrado" |}))
  | serves_get m segment k c b w :
      m = GET ∨ m = HEAD →
      parse_int segment = Some k →
      table w !! k = Some c →
      Serves {| http_method := m; http_path := [segment]; http_body := b |} w
        (add_call (call_findByPk segment) w)
        (Fulfilled (Some {| status := 200; json := data_product (instance k c) |}))
  | serves_created b w w' p :
      body_errors post_product_route b = [] →
      Product_create b w = (w', Fulfilled p) →
      Serves {| http_method := POST; http_path := []; http_body := b |} w w'
        (Fulfilled (Some {| status := 201; json := data_product p |}))
  | serves_create_rejected b w w' e :
      body_errors post_product_route b = [] →
      Product_create b w = (w', Rejected e) →
      Serves {| http_method := POST; http_path := []; http_body := b |} w w'
        (Rejected e)
  | serves_replaced segment k c c' b w :
      parse_int segment = Some k →
      body_errors put_product_route b = [] →
      table w !! k = Some c →
      replaced_columns b c = Some c' →
      Serves {| http_method := PUT; http_path := [segment]; http_body := b |} w
        (after (<[k := c']> (table w))
               [call_findByPk segment; call_update k b; call_save k] w)
        (Fulfilled (Some {| status := 200;
                            json := data_updated (instance k c') b |}))
  | serves_replace_rejected segment k c column b w :
      parse_int segment = Some k →
      body_errors put_product_route b = [] →
      table w !! k = Some c →
      replaced_columns b c = None →
      Serves {| http_method := PUT; http_path := [segment]; http_body := b |} w
        (add_call (call_update k b) (add_call (call_findByPk segment) w))
        (Rejected (type_violation column))
  | serves_toggled segment k c b w :
      parse_int segment = Some k →
      table w !! k = Some c →
      Serves {| http_method := PATCH; http_path := [segment]; http_body := b |} w
        (after (<[k := toggle c]> (table w))
               [call_findByPk segment; call_save k] w)
        (Fulfilled (Some {| status := 200;
                            json := data_product (instance k (toggle c)) |}))
  | serves_deleted segment k c b w :
      parse_int segment = Some k →
      table w !! k = Some c →
      Serves {| http_method := DELETE; http_path := [segment]; http_body := b |} w
        (after (delete k (table w))
               [call_findByPk segment; call_destroy k] w)
        (Fulfilled (Some {| status := 200; json := data_text "Producto Eliminado" |})).

(** A row as the rules of the routes want it: a name that is not empty
    and a price greater than zero. *)
Definition valid_row (c : Columns) : Prop :=
  col_name c ≠ "" ∧ num_gt_zero (col_price c) = true.

Definition valid_table (t : gmap Z Columns) : Prop :=
  map_Forall (λ _ c, valid_row c) t.

(** The calls to the store a run has added to the record. *)
Definition new_calls (w w' : World) (cs : list Call) : Prop :=
  calls w' = calls w ++ cs.

End Server.

(** ** Start-up ([server.ts])

    [connectDB] awaits [db.authenticate()] inside a [try]; when that
    promise is rejected the [catch] block logs the error and a message.
    [db.sync()] is started and not awaited. *)

Inductive Effect :=
  | db_authenticate
  | db_sync
  | console_log (text : string).

(** A promise that has settled: the effects performed, then the error it
    was rejected with or the value it was fulfilled with. *)
Definition Promise (A : Type) : Type := list Effect * (string + A).

Definition then_ {A B} (m : Promise A) (k : A → Promise B) : Promise B :=
  match m with
  | (es, inl error) => (es, inl error)
  | (es, inr a) => let '(es', out) := k a in (es ++ es', out)
  end.

(** [try { body } catch (error) { handler }] *)
Definition try_catch {A} (body : Promise A) (handler : string → Promise A)
  : Promise A :=
  match body with
  | (es, inl error) => let '(es', out) := handler error in (es ++ es', out)
  | (es, inr a) => (es, inr a)
  end.

Definition do_log (text : string) : Promise unit := ([console_log text], inr tt).

(** [await db.authenticate()]: [failure] is the error of the rejection,
    [None] when the connection is established. *)
Definition await_authenticate (failure : option string) : Promise unit :=
  ([db_authenticate], match failure with Some error => inl error | None => inr tt end).

(** [db.sync()], not awaited: starting it cannot interrupt the caller. *)
Definition start_sync : Promise unit := ([db_sync], inr tt).

(** [colors.bgRed.white(text)]: the text between the escape sequences that
    open and close the two styles (both empty when colours are off). *)
Definition bgRed_white (opening closing text : string) : string :=
  opening +:+ text +:+ closing.

Definition connectDB (opening closing : string) (failure : option string)
  : Promise unit :=
  try_catch
    (then_ (await_authenticate failure) (λ _, start_sync))
    (λ error,
       then_ (do_log error) (λ _,
       do_log (bgRed_white opening closing
                 "Hubo un error al conectar a la Base de datos"))).

(** ** Example data

    Integers as numbers, an example of how a store reads the values of a
    body, a store without rows and stores with one row. *)

Definition Z_as_text (v : @JValue Z_number) : option string :=
  match v with
  | JNull => None
  | _ => Some (toString (Some v))
  end.

Definition Z_as_number (v : @JValue Z_number) : option Z :=
  match v with
  | JNum n => Some n
  | JStr s => parse_int s
  | _ => None
  end.

Definition Z_as_boolean (v : @JValue Z_number) : option bool :=
  match v with
  | JBool b => Some b
  | JNull => None
  | _ =>
    let s := toString (Some v) in
    if bool_decide (s ∈ ["true"; "t"; "yes"; "y"; "on"; "1"]) then Some true
    else if bool_decide (s ∈ ["false"; "f"; "no"; "n"; "off"; "0"]) then Some false
    else None
  end.

Definition Z_as_key (v : @JValue Z_number) : option Z :=
  match parse_int (toString (Some v)) with
  | Some k => if decide (in_integer_range k) then Some k else None
  | None => None
  end.

Definition Z_columns : @ColumnTypes Z_number.
Proof.
  refine {| as_text := Z_as_text; as_number := Z_as_number;
            as_boolean := Z_as_boolean; as_key := Z_as_key |}.
  - intros v n; destruct v; cbn; congruence.
  - intros n pr; cbn; congruence.
  - intros v pr _; destruct v; cbn; try congruence.
    + intros [= ->]. reflexivity.
    + intros ->. reflexivity.
  - reflexivity.
  - intros v k k'. unfold Z_as_key.
    destruct (parse_int (toString (Some v))); [| discriminate].
    destruct (decide _); congruence.
  - intros v k. unfold Z_as_key.
    destruct (parse_int (toString (Some v))); [| discriminate].
    destruct (decide _); congruence.
Defined.

(** A store that holds the rows [t], with [s] the next key. *)
Definition world_of (t : gmap Z (@Columns Z_number)) (s : Z) : @World Z_number :=
  {| table := storable t; sequence := s; calls := [];
     table_keys := storable_keys t |}.

Definition empty_world : @World Z_number := world_of ∅ 1.

Definition monitor : @Columns Z_number :=
  @Build_Columns Z_number "Monitor Curvo 27 Pulgadas" 300 true.

Definition one_product_world : @World Z_number := world_of {[ 1 := monitor ]} 2.

(** A store whose one row is under the key 7. *)
Definition seventh_product_world : @World Z_number :=
  world_of {[ 7 := monitor ]} 8.

Definition http (m : Method) (segments : list string)
    (b : gmap string (@JValue Z_number)) : @HttpRequest Z_number :=
  {| http_method := m; http_path := segments; http_body := b |}.

(** The body the tests send to create and to update a product. *)
Definition mouse (p : Z) : gmap string (@JValue Z_number) :=
  {[ "name" := JStr "Mouse - TEST"; "price" := @JNum Z_number p ]}.

Definition curved_monitor (p : Z) : gmap string (@JValue Z_number) :=
  {[ "name" := JStr "monitor curvo"; "availability" := JBool true;
     "price" := @JNum Z_number p ]}.

(** The [msg] fields of the entries of a 400 response. *)
Definition messages (out : Settled (option (@Response Z_number)))
  : list string :=
  match out with
  | Fulfilled (Some {| status := 400; json := errors_list es |}) => msg <$> es
  | _ => []
  end.

(** A body for POST that asks for the key of the stored monitor. *)
Definition second_monitor : gmap string (@JValue Z_number) :=
  {[ "id" := @JNum Z_number 1; "name" := JStr "Monitor de 27 pulgada";
     "price" := @JNum Z_number 1200 ]}.

(** A body for POST that asks for a product that is not available. *)
Definition unavailable_mouse : gmap string (@JValue Z_number) :=
  {[ "name" := JStr "Mouse - TEST"; "price" := @JNum Z_number 500;
     "availability" := JBool false ]}.

(** * Properties *)

Section Properties.
Context `{JS : JSNumber} `{CT : !ColumnTypes}.

(** ** Worlds *)

Lemma world_eq (w1 w2 : World) :
  table w1 = table w2 → sequence w1 = sequence w2 → calls w1 = calls w2 →
  w1 = w2.
Proof.
  destruct w1 as [t1 s1 cs1 H1], w2 as [t2 s2 cs2 H2]; cbn.
  intros -> -> ->. f_equal. apply proof_irrel.
Qed.

(** Every stored row is under a key of the key column. *)
Lemma table_lookup_in_range (w : World) (k : Z) (c : Columns) :
  table w !! k = Some c → in_integer_range k.
Proof.
  intros Hk. pose proof (table_keys w) as H.
  apply bool_decide_eq_true_1 in H. exact (H k c Hk).
Qed.

Lemma table_lookup_out_of_range (w : World) (k : Z) :
  ¬ in_integer_range k → table w !! k = None.
Proof.
  intros Hk. destruct (table w !! k) as [c|] eqn:Hrow; [| done].
  by apply table_lookup_in_range in Hrow.
Qed.

Lemma storable_id (t : gmap Z Columns) :
  keys_in_range t → storable t = t.
Proof.
  intros Ht. apply map_filter_id. intros k c Hk. exact (Ht k c Hk).
Qed.

Lemma storable_table (w : World) : storable (table w) = table w.
Proof. apply storable_id. intros k c. apply table_lookup_in_range. Qed.

Lemma storable_insert (w : World) (k : Z) (c : Columns) :
  in_integer_range k → storable (<[k := c]> (table w)) = <[k := c]> (table w).
Proof.
  intros Hk. apply storable_id. intros k' c' Hk'.
  apply lookup_insert_Some in Hk' as [[<- _] | [_ Hk']]; [done |].
  by eapply table_lookup_in_range.
Qed.

Lemma storable_delete (w : World) (k : Z) :
  storable (delete k (table w)) = delete k (table w).
Proof.
  apply storable_id. intros k' c' Hk'.
  apply lookup_delete_Some in Hk' as [_ Hk'].
  by eapply table_lookup_in_range.
Qed.

Lemma sequence_after (t : gmap Z Columns) (cs : list Call) (w : World) :
  sequence (after t cs w) = sequence w.
Proof. reflexivity. Qed.

Lemma calls_after (t : gmap Z Columns) (cs : list Call) (w : World) :
  calls (after t cs w) = calls w ++ cs.
Proof. reflexivity. Qed.

(** ** Numerals *)

Lemma parse_int_isInt (s : string) (k : Z) :
  parse_int s = Some k → Validator.isInt s = true.
Proof.
  unfold parse_int, Validator.isInt.
  destruct (digits1 (strip_sign s)); [done | discriminate].
Qed.

Lemma isInt_parse_int (s : string) :
  Validator.isInt s = true → is_Some (parse_int s).
Proof.
  unfold parse_int, Validator.isInt. intros ->.
  destruct s as [|c s]; [by eexists |].
  destruct (decide (c = "-"%char)) as [-> | Hc]; [by eexists |].
  destruct c as [[] [] [] [] [] [] [] []]; by eexists.
Qed.

(** ** Dispatch *)

(** A stack that holds a handler never ends without a response. *)
Lemma run_stack_responds (ms : list Middleware) (req : Request)
    (errs : list ValidationError) (w : World) :
  (∃ h, handle h ∈ ms) → (run_stack ms req errs w).2 ≠ Fulfilled None.
Proof.
  revert errs. induction ms as [|m ms IH]; intros errs [h Hh].
  - by apply elem_of_nil in Hh.
  - apply elem_of_cons in Hh. destruct m as [chain | f | h']; cbn [run_stack].
    + apply IH. exists h. by destruct Hh.
    + destruct (f errs); [done |]. apply IH. exists h. by destruct Hh.
    + unfold bind. by destruct (h' req w) as [w' [res | e]].
Qed.

Lemma dispatch_skip (route : Route) (routes : list Route) (r : HttpRequest) :
  handles_method route (http_method r) = false
  ∨ match_path (route_path route) (http_path r) = None →
  dispatch (route :: routes) r = dispatch routes r.
Proof.
  intros [Hm | Hp]; cbn [dispatch].
  - by rewrite Hm.
  - rewrite Hp. by destruct (handles_method route (http_method r)).
Qed.

Lemma dispatch_first (route : Route) (routes : list Route) (r : HttpRequest)
    (ps : gmap string string) (w : World) :
  handles_method route (http_method r) = true →
  match_path (route_path route) (http_path r) = Some ps →
  (∃ h, handle h ∈ stack route) →
  dispatch (route :: routes) r w
  = run_stack (stack route) {| req_params := ps; req_body := http_body r |} [] w.
Proof.
  intros Hm Hp Hh. cbn [dispatch]. rewrite Hm, Hp.
  unfold bind.
  pose proof (run_stack_responds (stack route)
                {| req_params := ps; req_body := http_body r |} [] w Hh) as Hr.
  by destruct (run_stack _ _ _ w) as [w' [[res |] | e]].
Qed.

Ltac resolve_route :=
  unfold server, router;
  repeat (rewrite dispatch_skip
            by (first [left; reflexivity | right; reflexivity]));
  erewrite dispatch_first;
  [ | reflexivity | reflexivity
    | eexists; repeat first [apply list_elem_of_here | apply list_elem_of_further] ].

(** ** Validation *)

Lemma run_chain_id (segment : string) (b : gmap string JValue) :
  run_chain (withMessage "ID no valido" (isInt (param "id")))
    {| req_params := {[ "id" := segment ]}; req_body := b |}
  = if Validator.isInt segment then [] else [invalid_id_entry segment].
Proof.
  unfold run_chain. cbn. rewrite lookup_singleton_eq. cbn.
  unfold rule_errors. cbn. by destruct (Validator.isInt segment).
Qed.

(** A chain over a body field does not look at the path parameters. *)
Lemma run_chain_body (chain : ValidationChain) (ps ps' : gmap string string)
    (b : gmap string JValue) :
  location chain = in_body →
  run_chain chain {| req_params := ps; req_body := b |}
  = run_chain chain {| req_params := ps'; req_body := b |}.
Proof. unfold run_chain. by intros ->. Qed.

(** Each rule of a chain that rejects the value contributes exactly one
    entry: the entries of a chain are as many as its failing rules. *)
Lemma run_chain_length (chain : ValidationChain) (req : Request) :
  length (run_chain chain req)
  = length (filter (λ r, fails (check r)
                           (select_field (location chain) (path chain) req) = true)
                   (rules chain)).
Proof.
  unfold run_chain. induction (rules chain) as [|r rs IH]; [done |].
  cbn [flat_map]. rewrite length_app, IH, filter_cons. unfold rule_errors.
  case_decide as Hf; [by rewrite Hf |].
  apply not_true_is_false in Hf. by rewrite Hf.
Qed.

Ltac unfold_body_errors :=
  unfold body_errors, body_chains;
  cbn [put_product_route post_product_route stack flat_map];
  cbn [location withMessage isInt notEmpty isNumeric isBoolean custom
       add_check param body app];
  cbn [flat_map]; rewrite app_nil_r.

(** The entries the three body chains of PUT leave on a request. *)
Lemma put_body_errors (ps : gmap string string) (b : gmap string JValue) :
  let req := {| req_params := ps; req_body := b |} in
  (run_chain (withMessage "El nombre del producto no puede ir vacio"
                (notEmpty (body "name"))) req
   ++ run_chain (withMessage "Precio no valido"
                   (custom (λ value, gt_zero value)
                      (withMessage "El nombre del producto no puede ir vacio"
                         (notEmpty (withMessage "Valor no válido"
                                      (isNumeric (body "price"))))))) req)
  ++ run_chain (withMessage "El campo no puede ir vacio"
                  (isBoolean (body "availability"))) req
  = body_errors put_product_route b.
Proof.
  intros req. unfold req.
  rewrite !(run_chain_body _ ps ∅) by reflexivity.
  unfold_body_errors. by rewrite app_assoc.
Qed.

(** The entries the two body chains of POST leave on a request. *)
Lemma post_body_errors (ps : gmap string string) (b : gmap string JValue) :
  let req := {| req_params := ps; req_body := b |} in
  run_chain (withMessage "El nombre del producto no puede ir vacio"
               (notEmpty (body "name"))) req
  ++ run_chain (withMessage "Precio no valido"
                  (custom (λ value, gt_zero value)
                     (withMessage "El nombre del producto no puede ir vacio"
                        (notEmpty (withMessage "Valor no válido"
                                     (isNumeric (body "price"))))))) req
  = body_errors post_product_route b.
Proof.
  intros req. unfold req.
  rewrite !(run_chain_body _ ps ∅) by reflexivity.
  by unfold_body_errors.
Qed.

(** C1 (as amended).  A request to an id route (GET, PUT, PATCH or DELETE on
    [/:id]) whose [id] segment is not an integer numeral is answered 400; the
    first entry of [errors] is the one of the [id] rule, with message
    ["ID no valido"]; it is the only entry on GET, PATCH and DELETE, and on
    PUT it is followed by the entries of the body rules that failed.  The
    world is left as it was: no call to the store is made, so neither a
    lookup nor a 404 can happen. *)
Theorem invalid_id_rejected (m : Method) (segment : string)
    (b : gmap string JValue) (w : World) :
  m ≠ POST →
  segment ≠ "" →
  Validator.isInt segment = false →
  server {| http_method := m; http_path := [segment]; http_body := b |} w
  = (w, Fulfilled (Some
      {| status := 400;
         json := errors_list
           (invalid_id_entry segment
            :: if decide (m = PUT) then body_errors put_product_route b else []) |})).
Proof.
  intros Hm Hs Hint. destruct segment as [|c s]; [done |].
  destruct m; try done; resolve_route.
  - unfold get_product_route. cbn [stack run_stack http_body].
    by rewrite run_chain_id, Hint.
  - unfold put_product_route. cbn [stack run_stack http_body].
    rewrite run_chain_id, Hint. cbn [app run_stack].
    by rewrite decide_True, <- (put_body_errors {[ "id" := String c s ]}).
  - unfold patch_product_route. cbn [stack run_stack http_body].
    by rewrite run_chain_id, Hint.
  - unfold delete_product_route. cbn [stack run_stack http_body].
    by rewrite run_chain_id, Hint.
  - unfold get_product_route. cbn [stack run_stack http_body].
    by rewrite run_chain_id, Hint.
Qed.

(** ** The store calls *)

Lemma Product_findByPk_run (segment : string) (k : Z) (w : World) :
  parse_int segment = Some k →
  Product_findByPk (Some segment) w
  = (add_call (call_findByPk segment) w,
     if decide (in_integer_range k)
     then Fulfilled (instance k <$> table w !! k)
     else Rejected integer_out_of_range).
Proof.
  intros Hk. unfold Product_findByPk, bind, log, or_reject. rewrite Hk. cbn.
  by case_decide.
Qed.

Lemma Product_findByPk_in_range (segment : string) (k : Z) (w : World) :
  parse_int segment = Some k →
  in_integer_range k →
  Product_findByPk (Some segment) w
  = (add_call (call_findByPk segment) w, Fulfilled (instance k <$> table w !! k)).
Proof.
  intros Hk Hrange. rewrite (Product_findByPk_run _ k) by done.
  by rewrite decide_True.
Qed.

Lemma Product_findByPk_out_of_range {A} (segment : string) (k : Z) (w : World)
    (f : option Product → M A) :
  parse_int segment = Some k →
  ¬ in_integer_range k →
  bind (Product_findByPk (Some segment)) f w
  = (add_call (call_findByPk segment) w, Rejected integer_out_of_range).
Proof.
  intros Hk Hrange. unfold bind at 1. rewrite (Product_findByPk_run _ k) by done.
  by rewrite decide_False.
Qed.

Lemma table_after_insert (k : Z) (c : Columns) (cs : list Call) (w : World) :
  in_integer_range k →
  table (after (<[k := c]> (table w)) cs w) = <[k := c]> (table w).
Proof. intros Hk. cbn [after table]. by apply storable_insert. Qed.

Lemma table_after_delete (k : Z) (cs : list Call) (w : World) :
  table (after (delete k (table w)) cs w) = delete k (table w).
Proof. cbn [after table]. apply storable_delete. Qed.

(** HEAD is served by the routes of GET. *)
Lemma dispatch_HEAD (routes : list Route) (segments : list string)
    (b : gmap string JValue) :
  Forall (λ route, route_method route ≠ HEAD) routes →
  dispatch routes {| http_method := HEAD; http_path := segments; http_body := b |}
  = dispatch routes {| http_method := GET; http_path := segments; http_body := b |}.
Proof.
  induction 1 as [|route routes Hroute _ IH]; [done |].
  cbn [dispatch http_method http_path http_body]. rewrite IH.
  replace (handles_method route HEAD) with (handles_method route GET); [done |].
  unfold handles_method. cbn zeta.
  rewrite (decide_True (P := HEAD = HEAD ∧ _)) by done.
  by destruct (decide (GET = HEAD ∧ _)).
Qed.

Lemma server_HEAD (segments : list string) (b : gmap string JValue) :
  server {| http_method := HEAD; http_path := segments; http_body := b |}
  = server {| http_method := GET; http_path := segments; http_body := b |}.
Proof.
  apply dispatch_HEAD. unfold router. repeat constructor; discriminate.
Qed.

Lemma columns_instance (k : Z) (c : Columns) : columns (instance k c) = c.
Proof. by destruct c. Qed.

(** ** The id routes, once the id rule has passed *)

Lemma run_id_stack (h : Request → M Response) (segment : string)
    (b : gmap string JValue) (w : World) :
  Validator.isInt segment = true →
  run_stack [validate (withMessage "ID no valido" (isInt (param "id")));
             handleInputErrors; handle h]
    {| req_params := {[ "id" := segment ]}; req_body := b |} [] w
  = bind (h {| req_params := {[ "id" := segment ]}; req_body := b |})
         (λ res, ret (Some res)) w.
Proof. intros Hint. cbn [run_stack]. by rewrite run_chain_id, Hint. Qed.

Lemma server_GET_id (segment : string) (k : Z) (b : gmap string JValue) (w : World) :
  parse_int segment = Some k →
  server {| http_method := GET; http_path := [segment]; http_body := b |} w
  = bind (getProductById {| req_params := {[ "id" := segment ]}; req_body := b |})
         (λ res, ret (Some res)) w.
Proof.
  intros Hk. pose proof (parse_int_isInt _ _ Hk) as Hint.
  destruct segment as [|c s]; [done |]. resolve_route.
  by apply run_id_stack.
Qed.

Lemma server_PATCH_id (segment : string) (k : Z) (b : gmap string JValue) (w : World) :
  parse_int segment = Some k →
  server {| http_method := PATCH; http_path := [segment]; http_body := b |} w
  = bind (updateAvailability {| req_params := {[ "id" := segment ]}; req_body := b |})
         (λ res, ret (Some res)) w.
Proof.
  intros Hk. pose proof (parse_int_isInt _ _ Hk) as Hint.
  destruct segment as [|c s]; [done |]. resolve_route.
  by apply run_id_stack.
Qed.

Lemma server_DELETE_id (segment : string) (k : Z) (b : gmap string JValue) (w : World) :
  parse_int segment = Some k →
  server {| http_method := DELETE; http_path := [segment]; http_body := b |} w
  = bind (deleteProduct {| req_params := {[ "id" := segment ]}; req_body := b |})
         (λ res, ret (Some res)) w.
Proof.
  intros Hk. pose proof (parse_int_isInt _ _ Hk) as Hint.
  destruct segment as [|c s]; [done |]. resolve_route.
  by apply run_id_stack.
Qed.

(** ** The handlers on a key without a row *)

Section NotFound.
Variables (req : Request) (segment : string) (k : Z) (w : World).
Hypothesis Hid : req_params req !! "id" = Some segment.
Hypothesis Hk : parse_int segment = Some k.
Hypothesis Hrange : in_integer_range k.
Hypothesis Hrow : table w !! k = None.

Lemma getProductById_not_found :
  getProductById req w = (add_call (call_findByPk segment) w, Fulfilled not_found).
Proof.
  unfold getProductById, bind. rewrite Hid, (Product_findByPk_in_range _ k) by done.
  by rewrite Hrow.
Qed.

Lemma updateProduct_not_found :
  updateProduct req w = (add_call (call_findByPk segment) w, Fulfilled not_found).
Proof.
  unfold updateProduct, bind. rewrite Hid, (Product_findByPk_in_range _ k) by done.
  by rewrite Hrow.
Qed.

Lemma updateAvailability_not_found :
  updateAvailability req w = (add_call (call_findByPk segment) w, Fulfilled not_found).
Proof.
  unfold updateAvailability, bind. rewrite Hid, (Product_findByPk_in_range _ k) by done.
  by rewrite Hrow.
Qed.

Lemma deleteProduct_not_found :
  deleteProduct req w = (add_call (call_findByPk segment) w, Fulfilled not_found).
Proof.
  unfold deleteProduct, bind. rewrite Hid, (Product_findByPk_in_range _ k) by done.
  by rewrite Hrow.
Qed.

End NotFound.

(** ** The handlers on an integer that is not a key *)

Section OutOfRange.
Variables (req : Request) (segment : string) (k : Z) (w : World).
Hypothesis Hid : req_params req !! "id" = Some segment.
Hypothesis Hk : parse_int segment = Some k.
Hypothesis Hrange : ¬ in_integer_range k.

Lemma getProductById_out_of_range :
  getProductById req w
  = (add_call (call_findByPk segment) w, Rejected integer_out_of_range).
Proof.
  unfold getProductById. rewrite Hid.
  by apply (Product_findByPk_out_of_range _ k).
Qed.

Lemma updateProduct_out_of_range :
  updateProduct req w
  = (add_call (call_findByPk segment) w, Rejected integer_out_of_range).
Proof.
  unfold updateProduct. rewrite Hid.
  by apply (Product_findByPk_out_of_range _ k).
Qed.

Lemma updateAvailability_out_of_range :
  updateAvailability req w
  = (add_call (call_findByPk segment) w, Rejected integer_out_of_range).
Proof.
  unfold updateAvailability. rewrite Hid.
  by apply (Product_findByPk_out_of_range _ k).
Qed.

Lemma deleteProduct_out_of_range :
  deleteProduct req w
  = (add_call (call_findByPk segment) w, Rejected integer_out_of_range).
Proof.
  unfold deleteProduct. rewrite Hid.
  by apply (Product_findByPk_out_of_range _ k).
Qed.

End OutOfRange.

(** C3 (as amended).  GET [/:id] with an integer id under which no row is
    stored is answered 404 with the body [{error: "Producto no encontrado"}],
    after the one lookup, provided the integer is one the key column can
    hold; the handlers of PUT, PATCH and DELETE give the same answer on
    such a key.  For an integer outside the range of the key column the
    lookup is rejected by the store: the request is not answered, by GET
    or by the other three handlers. *)
Theorem get_missing_product_not_found (segment : string) (k : Z)
    (b : gmap string JValue) (w : World) :
  parse_int segment = Some k →
  table w !! k = None →
  let req := {| req_params := {[ "id" := segment ]}; req_body := b |} in
  let answer := {| status := 404; json := error_text "Producto no encontrado" |} in
  (in_integer_range k →
   server {| http_method := GET; http_path := [segment]; http_body := b |} w
   = (add_call (call_findByPk segment) w, Fulfilled (Some answer))
   ∧ (updateProduct req w).2 = Fulfilled answer
   ∧ (updateAvailability req w).2 = Fulfilled answer
   ∧ (deleteProduct req w).2 = Fulfilled answer)
  ∧ (¬ in_integer_range k →
     server {| http_method := GET; http_path := [segment]; http_body := b |} w
     = (add_call (call_findByPk segment) w, Rejected integer_out_of_range)
     ∧ (updateProduct req w).2 = Rejected integer_out_of_range
     ∧ (updateAvailability req w).2 = Rejected integer_out_of_range
     ∧ (deleteProduct req w).2 = Rejected integer_out_of_range).
Proof.
  intros Hk Hrow req answer.
  assert (req_params req !! "id" = Some segment) as Hid
    by apply lookup_singleton_eq.
  split; intros Hrange; split_and!.
  - rewrite (server_GET_id _ k) by done. unfold bind.
    by rewrite (getProductById_not_found _ segment k).
  - by rewrite (updateProduct_not_found _ segment k).
  - by rewrite (updateAvailability_not_found _ segment k).
  - by rewrite (deleteProduct_not_found _ segment k).
  - rewrite (server_GET_id _ k) by done. unfold bind.
    by rewrite (getProductById_out_of_range _ segment k).
  - by rewrite (updateProduct_out_of_range _ segment k).
  - by rewrite (updateAvailability_out_of_range _ segment k).
  - by rewrite (deleteProduct_out_of_range _ segment k).
Qed.

(** ** The handlers on a key with a row *)

Section Found.
Variables (req : Request) (segment : string) (k : Z) (c : Columns) (w : World).
Hypothesis Hid : req_params req !! "id" = Some segment.
Hypothesis Hk : parse_int segment = Some k.
Hypothesis Hrow : table w !! k = Some c.

Lemma found_in_range : in_integer_range k.
Proof. by eapply table_lookup_in_range. Qed.

Lemma Product_findByPk_found :
  Product_findByPk (Some segment) w
  = (add_call (call_findByPk segment) w, Fulfilled (Some (instance k c))).
Proof.
  rewrite (Product_findByPk_in_range _ k) by (done || apply found_in_range).
  by rewrite Hrow.
Qed.

Lemma getProductById_found :
  getProductById req w
  = (add_call (call_findByPk segment) w,
     Fulfilled {| status := 200; json := data_product (instance k c) |}).
Proof.
  unfold getProductById, bind. by rewrite Hid, Product_findByPk_found.
Qed.

Lemma updateAvailability_found :
  updateAvailability req w
  = (after (<[k := toggle c]> (table w)) [call_findByPk segment; call_save k] w,
     Fulfilled {| status := 200; json := data_product (instance k (toggle c)) |}).
Proof.
  unfold updateAvailability, bind. rewrite Hid, Product_findByPk_found.
  unfold product_save, write_back, bind, log, get_table, put_table.
  cbn [add_call table instance set_availability id]. rewrite Hrow.
  unfold after, set_table, add_call. cbn [table sequence calls].
  by rewrite <- app_assoc.
Qed.

Lemma deleteProduct_found :
  deleteProduct req w
  = (after (delete k (table w)) [call_findByPk segment; call_destroy k] w,
     Fulfilled {| status := 200; json := data_text "Producto Eliminado" |}).
Proof.
  unfold deleteProduct, bind. rewrite Hid, Product_findByPk_found.
  unfold product_destroy, bind, log, get_table, put_table, after, set_table,
    add_call.
  cbn [table sequence calls instance id]. by rewrite <- app_assoc.
Qed.

End Found.

Lemma toggle_toggle (c : Columns) : toggle (toggle c) = c.
Proof. destruct c as [n p a]. unfold toggle. cbn. by rewrite negb_involutive. Qed.

(** Two PATCH requests in a row give the table back as it was. *)
Lemma patch_twice_table (segment : string) (k : Z) (c : Columns)
    (b : gmap string JValue) (w : World) :
  parse_int segment = Some k →
  table w !! k = Some c →
  let r := {| http_method := PATCH; http_path := [segment]; http_body := b |} in
  table (server r (server r w).1).1 = table w.
Proof.
  intros Hk Hrow r. unfold r.
  pose proof (table_lookup_in_range _ _ _ Hrow) as Hrange.
  assert (∀ w' c', table w' !! k = Some c' →
            (server {| http_method := PATCH; http_path := [segment]; http_body := b |} w').1
            = after (<[k := toggle c']> (table w'))
                    [call_findByPk segment; call_save k] w') as Hstep.
  { intros w' c' Hrow'. rewrite (server_PATCH_id _ k) by done. unfold bind.
    rewrite (updateAvailability_found _ segment k c') by
      (done || apply lookup_singleton_eq). done. }
  rewrite (Hstep w c Hrow).
  rewrite (Hstep _ (toggle c))
    by (rewrite table_after_insert by done; apply lookup_insert_eq).
  rewrite !table_after_insert by done.
  rewrite insert_insert_eq, toggle_toggle. by apply insert_id.
Qed.

Lemma server_PUT_id (segment : string) (k : Z) (b : gmap string JValue) (w : World) :
  parse_int segment = Some k →
  server {| http_method := PUT; http_path := [segment]; http_body := b |} w
  = match body_errors put_product_route b with
    | [] => bind (updateProduct {| req_params := {[ "id" := segment ]}; req_body := b |})
                 (λ res, ret (Some res)) w
    | es => (w, Fulfilled (Some {| status := 400; json := errors_list es |}))
    end.
Proof.
  intros Hk. pose proof (parse_int_isInt _ _ Hk) as Hint.
  destruct segment as [|c s]; [done |]. resolve_route.
  cbn [stack put_product_route run_stack http_body].
  rewrite run_chain_id, Hint. cbn [app].
  rewrite (put_body_errors {[ "id" := String c s ]}).
  by destruct (body_errors put_product_route b).
Qed.

Lemma server_POST (b : gmap string JValue) (w : World) :
  server {| http_method := POST; http_path := []; http_body := b |} w
  = match body_errors post_product_route b with
    | [] => bind (createProduct {| req_params := ∅; req_body := b |})
                 (λ res, ret (Some res)) w
    | es => (w, Fulfilled (Some {| status := 400; json := errors_list es |}))
    end.
Proof.
  resolve_route.
  cbn [stack post_product_route run_stack http_body app].
  rewrite (post_body_errors ∅).
  by destruct (body_errors post_product_route b).
Qed.

Lemma server_PATCH_found (segment : string) (k : Z) (c : Columns)
    (b : gmap string JValue) (w : World) :
  parse_int segment = Some k →
  table w !! k = Some c →
  server {| http_method := PATCH; http_path := [segment]; http_body := b |} w
  = (after (<[k := toggle c]> (table w)) [call_findByPk segment; call_save k] w,
     Fulfilled (Some {| status := 200;
                        json := data_product (instance k (toggle c)) |})).
Proof.
  intros Hk Hrow. rewrite (server_PATCH_id _ k) by done. unfold bind.
  by rewrite (updateAvailability_found _ segment k c)
    by (done || apply lookup_singleton_eq).
Qed.

(** C2.  PATCH [/:id] on a stored product flips its availability and
    answers 200 with the product carrying the new value; a second PATCH
    brings the original value back, and after any even number of PATCH
    requests the table is what it was. *)
Theorem patch_toggles_availability (segment : string) (k : Z) (c : Columns)
    (b : gmap string JValue) (w : World) :
  parse_int segment = Some k →
  table w !! k = Some c →
  let r := {| http_method := PATCH; http_path := [segment]; http_body := b |} in
  ∃ w1 w2 p1 p2,
    server r w = (w1, Fulfilled (Some {| status := 200; json := data_product p1 |}))
    ∧ availability p1 = negb (col_availability c)
    ∧ col_availability <$> table w1 !! k = Some (availability p1)
    ∧ server r w1 = (w2, Fulfilled (Some {| status := 200; json := data_product p2 |}))
    ∧ availability p2 = col_availability c
    ∧ col_availability <$> table w2 !! k = Some (col_availability c)
    ∧ ∀ n : nat, table (Nat.iter (2 * n) (λ w', (server r w').1) w) = table w.
Proof.
  intros Hk Hrow r. unfold r.
  pose proof (table_lookup_in_range _ _ _ Hrow) as Hrange.
  eexists _, _, _, _. split_and!.
  - by apply (server_PATCH_found _ k c).
  - done.
  - by rewrite table_after_insert, lookup_insert_eq.
  - apply (server_PATCH_found _ k (toggle c)); [done |].
    rewrite table_after_insert by done. apply lookup_insert_eq.
  - cbn. apply negb_involutive.
  - rewrite table_after_insert, lookup_insert_eq by done.
    cbn. by rewrite negb_involutive.
  - intros n. induction n as [|n IH]; [done |].
    replace (2 * S n)%nat with (S (S (2 * n))) by lia.
    cbn [Nat.iter]. etrans; [| exact IH].
    apply (patch_twice_table segment k c); [done |]. by rewrite IH.
Qed.

(** C7.  PATCH [/:id] does not look at the request body: the outcome is the
    same whatever the body.  On a stored product its effect is confined to
    the availability column of that one row: the id, the name and the price
    of the product stay as they were, every other row and the key sequence
    are untouched, and the availability is flipped. *)
Theorem patch_changes_availability_only (segment : string) (k : Z) (c : Columns)
    (b b' : gmap string JValue) (w : World) :
  parse_int segment = Some k →
  table w !! k = Some c →
  server {| http_method := PATCH; http_path := [segment]; http_body := b' |} w
  = server {| http_method := PATCH; http_path := [segment]; http_body := b |} w
  ∧ ∃ w1 p,
      server {| http_method := PATCH; http_path := [segment]; http_body := b |} w
      = (w1, Fulfilled (Some {| status := 200; json := data_product p |}))
      ∧ id p = k ∧ name p = col_name c ∧ price p = col_price c
      ∧ availability p = negb (col_availability c)
      ∧ table w1 !! k = Some (columns p)
      ∧ (∀ k', k' ≠ k → table w1 !! k' = table w !! k')
      ∧ sequence w1 = sequence w.
Proof.
  intros Hk Hrow. split.
  - by rewrite !(server_PATCH_found _ k c).
  - pose proof (table_lookup_in_range _ _ _ Hrow) as Hrange.
    eexists _, _. split; [by apply (server_PATCH_found _ k c) |].
    rewrite table_after_insert by done. split_and!; try done.
    + by rewrite lookup_insert_eq.
    + intros k' Hk'. by rewrite lookup_insert_ne.
Qed.

(** C4 (as amended).  DELETE [/:id] on a stored product answers 200 with
    the string ["Producto Eliminado"] as [data] (not the product), the row
    is removed from the table, and a GET for the same id that follows is
    answered 404. *)
Theorem delete_removes_product (segment : string) (k : Z) (c : Columns)
    (b : gmap string JValue) (w : World) :
  parse_int segment = Some k →
  table w !! k = Some c →
  ∃ w1,
    server {| http_method := DELETE; http_path := [segment]; http_body := b |} w
    = (w1, Fulfilled (Some {| status := 200; json := data_text "Producto Eliminado" |}))
    ∧ table w1 = delete k (table w)
    ∧ table w1 !! k = None
    ∧ ∀ b', (server {| http_method := GET; http_path := [segment]; http_body := b' |} w1).2
            = Fulfilled (Some {| status := 404;
                                 json := error_text "Producto no encontrado" |}).
Proof.
  intros Hk Hrow. pose proof (table_lookup_in_range _ _ _ Hrow) as Hrange.
  eexists. split_and!.
  - rewrite (server_DELETE_id _ k) by done. unfold bind.
    by rewrite (deleteProduct_found _ segment k c)
      by (done || apply lookup_singleton_eq).
  - apply table_after_delete.
  - rewrite table_after_delete. apply lookup_delete_eq.
  - intros b'. rewrite (server_GET_id _ k) by done. unfold bind.
    rewrite (getProductById_not_found _ segment k); [done | ..].
    + apply lookup_singleton_eq.
    + done.
    + done.
    + rewrite table_after_delete. apply lookup_delete_eq.
Qed.

(** C9 (as amended).  When the id is an integer that names no stored row,
    the handlers of PUT, PATCH and DELETE stop after the lookup: the table
    and the key sequence are those of before, and the only call made to the
    store is [findByPk].  The answer is 404 when the key column can hold
    the integer; when it cannot, the lookup is rejected by the store and
    there is no answer.  Through the router, such a request leaves the
    table and the sequence as they were whatever its body. *)
Theorem not_found_writes_nothing (req : Request) (segment : string) (k : Z)
    (w : World) :
  req_params req !! "id" = Some segment →
  parse_int segment = Some k →
  table w !! k = None →
  Forall (λ h : Request → M Response,
            table (h req w).1 = table w
            ∧ sequence (h req w).1 = sequence w
            ∧ calls (h req w).1 = calls w ++ [call_findByPk segment]
            ∧ (h req w).2
              = if decide (in_integer_range k)
                then Fulfilled {| status := 404;
                                  json := error_text "Producto no encontrado" |}
                else Rejected integer_out_of_range)
         [updateProduct; updateAvailability; deleteProduct]
  ∧ ∀ m b, m ∈ [PUT; PATCH; DELETE] →
      let w' := (server {| http_method := m; http_path := [segment];
                           http_body := b |} w).1 in
      table w' = table w ∧ sequence w' = sequence w.
Proof.
  intros Hid Hk Hrow.
  assert (∀ h : Request → M Response,
            (in_integer_range k →
             h req w = (add_call (call_findByPk segment) w, Fulfilled not_found)) →
            (¬ in_integer_range k →
             h req w = (add_call (call_findByPk segment) w,
                        Rejected integer_out_of_range)) →
            table (h req w).1 = table w
            ∧ sequence (h req w).1 = sequence w
            ∧ calls (h req w).1 = calls w ++ [call_findByPk segment]
            ∧ (h req w).2
              = if decide (in_integer_range k)
                then Fulfilled not_found
                else Rejected integer_out_of_range) as Hstop.
  { intros h Hin Hout. case_decide as Hrange.
    - by rewrite (Hin Hrange).
    - by rewrite (Hout Hrange). }
  split.
  - repeat apply Forall_cons_2; [| | | apply Forall_nil_2]; apply Hstop; intros Hrange.
    + by apply (updateProduct_not_found _ segment k).
    + by apply (updateProduct_out_of_range _ segment k).
    + by apply (updateAvailability_not_found _ segment k).
    + by apply (updateAvailability_out_of_range _ segment k).
    + by apply (deleteProduct_not_found _ segment k).
    + by apply (deleteProduct_out_of_range _ segment k).
  - intros m b Hm.
    assert (req_params {| req_params := {[ "id" := segment ]}; req_body := b |}
              !! "id" = Some segment) as Hid' by apply lookup_singleton_eq.
    destruct (decide (in_integer_range k)) as [Hrange | Hrange];
    (apply elem_of_cons in Hm as [-> | Hm]; [| apply elem_of_cons in Hm as [-> | Hm];
      [| apply list_elem_of_singleton in Hm as ->]]).
    + rewrite (server_PUT_id _ k) by done.
      destruct (body_errors put_product_route b); [| done].
      unfold bind. by rewrite (updateProduct_not_found _ segment k).
    + rewrite (server_PATCH_id _ k) by done.
      unfold bind. by rewrite (updateAvailability_not_found _ segment k).
    + rewrite (server_DELETE_id _ k) by done.
      unfold bind. by rewrite (deleteProduct_not_found _ segment k).
    + rewrite (server_PUT_id _ k) by done.
      destruct (body_errors put_product_route b); [| done].
      unfold bind. by rewrite (updateProduct_out_of_range _ segment k).
    + rewrite (server_PATCH_id _ k) by done.
      unfold bind. by rewrite (updateAvailability_out_of_range _ segment k).
    + rewrite (server_DELETE_id _ k) by done.
      unfold bind. by rewrite (deleteProduct_out_of_range _ segment k).
Qed.

(** ** Validation of missing fields *)

Lemma run_chain_name_missing (ps : gmap string string) (b : gmap string JValue) :
  b !! "name" = None →
  run_chain (withMessage "El nombre del producto no puede ir vacio"
               (notEmpty (body "name")))
    {| req_params := ps; req_body := b |}
  = [missing_field_entry "name" "El nombre del producto no puede ir vacio"].
Proof. intros Hb. unfold run_chain. cbn. by rewrite Hb. Qed.

Lemma run_chain_price_missing (ps : gmap string string) (b : gmap string JValue) :
  b !! "price" = None →
  run_chain (withMessage "Precio no valido"
               (custom (λ value, gt_zero value)
                  (withMessage "El nombre del producto no puede ir vacio"
                     (notEmpty (withMessage "Valor no válido"
                                  (isNumeric (body "price")))))))
    {| req_params := ps; req_body := b |}
  = [missing_field_entry "price" "Valor no válido";
     missing_field_entry "price" "El nombre del producto no puede ir vacio";
     missing_field_entry "price" "Precio no valido"].
Proof. intros Hb. unfold run_chain. cbn. by rewrite Hb. Qed.

Lemma run_chain_availability_missing (ps : gmap string string)
    (b : gmap string JValue) :
  b !! "availability" = None →
  run_chain (withMessage "El campo no puede ir vacio"
               (isBoolean (body "availability")))
    {| req_params := ps; req_body := b |}
  = [missing_field_entry "availability" "El campo no puede ir vacio"].
Proof. intros Hb. unfold run_chain. cbn. by rewrite Hb. Qed.

(** C5.  POST [/] with an empty body is answered 400 with exactly four
    entries: one for the name (it must not be empty) and three for the
    price, one per rule of its chain (numeric, not empty, greater than
    zero).  The store is not called.  In general a chain records one entry
    for each of its rules that rejects the value. *)
Theorem post_empty_body_four_errors (w : World) :
  server {| http_method := POST; http_path := []; http_body := ∅ |} w
  = (w, Fulfilled (Some
      {| status := 400;
         json := errors_list
           [missing_field_entry "name" "El nombre del producto no puede ir vacio";
            missing_field_entry "price" "Valor no válido";
            missing_field_entry "price" "El nombre del producto no puede ir vacio";
            missing_field_entry "price" "Precio no valido"] |}))
  ∧ ∀ chain req,
      length (run_chain chain req)
      = length (filter (λ r, fails (check r)
                               (select_field (location chain) (path chain) req) = true)
                       (rules chain)).
Proof.
  split; [| apply run_chain_length].
  rewrite server_POST, <- (post_body_errors ∅). cbn zeta.
  by rewrite run_chain_name_missing, run_chain_price_missing.
Qed.

(** C6.  PUT [/:id] with an integer id and none of [name], [price] and
    [availability] in the body is answered 400 with exactly five entries:
    one for the name, three for the price, one for the availability.  The
    store is not called. *)
Theorem put_missing_fields_five_errors (segment : string)
    (b : gmap string JValue) (w : World) :
  Validator.isInt segment = true →
  b !! "name" = None →
  b !! "price" = None →
  b !! "availability" = None →
  server {| http_method := PUT; http_path := [segment]; http_body := b |} w
  = (w, Fulfilled (Some
      {| status := 400;
         json := errors_list
           [missing_field_entry "name" "El nombre del producto no puede ir vacio";
            missing_field_entry "price" "Valor no válido";
            missing_field_entry "price" "El nombre del producto no puede ir vacio";
            missing_field_entry "price" "Precio no valido";
            missing_field_entry "availability" "El campo no puede ir vacio"] |})).
Proof.
  intros Hint Hn Hp Ha. destruct (isInt_parse_int _ Hint) as [k Hk].
  rewrite (server_PUT_id _ k), <- (put_body_errors ∅) by done. cbn zeta.
  by rewrite run_chain_name_missing, run_chain_price_missing,
    run_chain_availability_missing.
Qed.

(** ** Listing *)

Global Instance by_id_desc_trans : Transitive by_id_desc.
Proof. unfold by_id_desc. intros p q r. lia. Qed.

Global Instance by_id_desc_total : Total by_id_desc.
Proof. unfold by_id_desc. intros p q. lia. Qed.

Lemma instance_columns (p : Product) : instance (id p) (columns p) = p.
Proof. by destruct p. Qed.

Lemma elem_of_all_products (t : gmap Z Columns) (p : Product) :
  p ∈ all_products t ↔ t !! id p = Some (columns p).
Proof.
  unfold all_products. rewrite list_elem_of_fmap. split.
  - intros [[k c] [-> Hkc]]. apply elem_of_map_to_list in Hkc.
    cbn. by rewrite columns_instance.
  - intros Hp. exists (id p, columns p). split.
    + cbn. by rewrite instance_columns.
    + by apply elem_of_map_to_list.
Qed.

Lemma all_products_ids (t : gmap Z Columns) :
  id <$> all_products t = (map_to_list t).*1.
Proof.
  unfold all_products. rewrite <- list_fmap_compose.
  by apply list_fmap_ext; intros i [k c] _.
Qed.

(** Sorted by non-increasing key without a repeated key: strictly decreasing. *)
Lemma sorted_desc_strict (ps : list Product) :
  StronglySorted by_id_desc ps →
  NoDup (id <$> ps) →
  StronglySorted (λ p q, id q < id p) ps.
Proof.
  induction 1 as [|p ps Hs IH Hall]; intros Hnd; [constructor |].
  rewrite fmap_cons in Hnd. apply NoDup_cons in Hnd as [Hp Hnd].
  constructor; [by apply IH |].
  apply Forall_forall. intros q Hq.
  rewrite Forall_forall in Hall. specialize (Hall q Hq). unfold by_id_desc in Hall.
  assert (id q ≠ id p); [| lia].
  intros Heq. apply Hp. rewrite <- Heq. by apply list_elem_of_fmap_2.
Qed.

(** C8.  GET [/] is answered 200 with [{data: products}] in every state of
    the store: [products] holds exactly the stored products, each once, in
    strictly decreasing order of id.  The store is read and not written. *)
Theorem list_products_descending (b : gmap string JValue) (w : World) :
  ∃ products,
    server {| http_method := GET; http_path := []; http_body := b |} w
    = (add_call call_findAll w,
       Fulfilled (Some {| status := 200; json := data_products products |}))
    ∧ (∀ p, p ∈ products ↔ table w !! id p = Some (columns p))
    ∧ NoDup products
    ∧ length products = size (table w)
    ∧ StronglySorted (λ p q, id q < id p) products.
Proof.
  exists (merge_sort by_id_desc (all_products (table w))).
  assert (NoDup (id <$> merge_sort by_id_desc (all_products (table w)))) as Hnd.
  { rewrite merge_sort_Permutation, all_products_ids.
    apply NoDup_fst_map_to_list. }
  split_and!.
  - by resolve_route.
  - intros p. by rewrite merge_sort_Permutation, elem_of_all_products.
  - by apply (NoDup_fmap_1 id).
  - rewrite merge_sort_Permutation. unfold all_products.
    by rewrite length_fmap, length_map_to_list.
  - apply sorted_desc_strict; [| done]. apply StronglySorted_merge_sort; apply _.
Qed.

(** ** Creation *)

(** Inversion of the monad's operations on a fulfilled run. *)
Lemma bind_fulfilled {A B} (m : M A) (f : A → M B) (w w' : World) (b : B) :
  bind m f w = (w', Fulfilled b) →
  ∃ a w1, m w = (w1, Fulfilled a) ∧ f a w1 = (w', Fulfilled b).
Proof.
  unfold bind. destruct (m w) as [w1 [a | e]]; [| discriminate].
  intros Hf. by exists a, w1.
Qed.

Lemma or_reject_fulfilled {A} (e : StorageError) (o : option A) (w w' : World)
    (a : A) :
  or_reject e o w = (w', Fulfilled a) → o = Some a ∧ w' = w.
Proof. destruct o; [by intros [= <- <-] | discriminate]. Qed.

(** What a fulfilled [Product.create] has done: it was handed the values
    whole; every column came from the values as supplied, the availability
    took its default only when the values give none, the key is the one
    supplied or else the next of the sequence, and the row was inserted
    under that key, which was free. *)
Lemma Product_create_fulfilled (values : gmap string JValue) (w w' : World)
    (p : Product) :
  Product_create values w = (w', Fulfilled p) →
  values !! "name" ≫= as_text = Some (name p)
  ∧ values !! "price" ≫= as_number = Some (price p)
  ∧ match values !! "availability" with
    | None => availability p = default_availability
    | Some v => as_boolean v = Some (availability p)
    end
  ∧ match values !! "id" with
    | None | Some JNull => id p = sequence w
    | Some v => as_key v = Some (id p)
    end
  ∧ table w !! id p = None
  ∧ table w' = <[id p := columns p]> (table w)
  ∧ in_integer_range (id p)
  ∧ calls w' = calls w ++ [call_create values].
Proof.
  unfold Product_create. intros Hrun.
  apply bind_fulfilled in Hrun as ([] & w1 & [= <-] & Hrun).
  apply bind_fulfilled in Hrun as (n & w2 & [Hn ->]%or_reject_fulfilled & Hrun).
  apply bind_fulfilled in Hrun as (pr & w2 & [Hpr ->]%or_reject_fulfilled & Hrun).
  apply bind_fulfilled in Hrun as (a & w2 & Ha & Hrun).
  apply bind_fulfilled in Hrun as (k & w3 & Hk & Hrun).
  unfold insert_row in Hrun.
  destruct (decide (in_integer_range k)) as [Hrange |]; [| discriminate].
  apply bind_fulfilled in Hrun as (t & w4 & [= <- <-] & Hrun).
  destruct (table w3 !! k) eqn:Hfree; [discriminate |].
  injection Hrun as <- <-. cbn [name price availability id instance columns
                                col_name col_price col_availability].
  assert (w2 = add_call (call_create values) w
          ∧ match values !! "availability" with
            | Some v => as_boolean v = Some a
            | None => a = default_availability
            end) as [-> Hav].
  { destruct (values !! "availability").
    - by apply or_reject_fulfilled in Ha as [-> ->].
    - by injection Ha as <- <-. }
  assert (table w3 = table w ∧ calls w3 = calls w ++ [call_create values]
          ∧ match values !! "id" with
            | None | Some JNull => k = sequence w
            | Some v => as_key v = Some k
            end) as (Ht & Hcalls & Hid).
  { destruct (values !! "id") as [[] |];
      first [ by injection Hk as <- <-
            | by apply or_reject_fulfilled in Hk as [-> ->] ]. }
  cbn [set_table table calls]. rewrite storable_insert by done.
  rewrite Ht in Hfree |- *. by split_and!.
Qed.

(** Whatever its outcome, [Product.create] makes the one call, with the
    values as they came. *)
Lemma Product_create_calls (values : gmap string JValue) (w : World) :
  calls (Product_create values w).1 = calls w ++ [call_create values].
Proof.
  unfold Product_create, bind, log, insert_row, get_table, put_table,
    or_reject, nextval, ret, reject.
  repeat (first [case_match | progress simplify_eq | progress unfold bind]);
    done.
Qed.

(** [Product.create] is fulfilled whenever the values read as values of
    their columns, no key is supplied and the next key of the sequence is
    a key that is free. *)
Lemma Product_create_succeeds (values : gmap string JValue) (n : string)
    (pr : number) (w : World) :
  values !! "name" ≫= as_text = Some n →
  values !! "price" ≫= as_number = Some pr →
  (∀ v, values !! "availability" = Some v → is_Some (as_boolean v)) →
  values !! "id" = None →
  in_integer_range (sequence w) →
  table w !! sequence w = None →
  ∃ w' p, Product_create values w = (w', Fulfilled p)
          ∧ id p = sequence w ∧ name p = n ∧ price p = pr
          ∧ sequence w' = sequence w + 1.
Proof.
  intros Hn Hpr Hav Hid Hrange Hfree.
  unfold Product_create, insert_row, bind, log, get_table, put_table.
  rewrite Hn, Hpr, Hid. cbn [or_reject ret nextval add_call sequence table].
  destruct (values !! "availability") as [v|].
  - destruct (Hav v eq_refl) as [a ->]. cbn [or_reject ret].
    rewrite decide_True by done. cbn [table sequence add_call].
    rewrite Hfree. by eexists _, _.
  - cbn [ret]. rewrite decide_True by done. cbn [table sequence add_call].
    rewrite Hfree. by eexists _, _.
Qed.

(** C10.  [createProduct] hands the whole request body to [Product.create]:
    a POST [/] that passes validation is exactly the creation from the
    body, answered 201, and the one call made to the store is [create]
    with the body as it came.  Whenever the request is answered, the
    stored product holds what the body supplied for every column: the
    name and the price as the store reads them (a name given as a string
    is stored as that string, a price given as a number as that number);
    an availability given in the body (such as [false]) and not the
    default, which is stored only when the body gives no availability; and
    an id given in the body as its key, the next key of the sequence being
    taken only when the body gives none. *)
Theorem create_forwards_whole_body (b : gmap string JValue) (w : World) :
  body_errors post_product_route b = [] →
  server {| http_method := POST; http_path := []; http_body := b |} w
  = bind (Product_create b)
         (λ product, ret (Some {| status := 201; json := data_product product |})) w
  ∧ calls (server {| http_method := POST; http_path := []; http_body := b |} w).1
    = calls w ++ [call_create b]
  ∧ ∀ w' res,
      server {| http_method := POST; http_path := []; http_body := b |} w
      = (w', Fulfilled (Some res)) →
      ∃ p, res = {| status := 201; json := data_product p |}
           ∧ table w' !! id p = Some (columns p)
           ∧ b !! "name" ≫= as_text = Some (name p)
           ∧ b !! "price" ≫= as_number = Some (price p)
           ∧ (∀ s, b !! "name" = Some (JStr s) → name p = s)
           ∧ (∀ n, b !! "price" = Some (JNum n) → price p = n)
           ∧ (∀ a, b !! "availability" = Some (JBool a) → availability p = a)
           ∧ (b !! "availability" = None → availability p = true)
           ∧ (∀ v, b !! "availability" = Some v
                   → as_boolean v = Some (availability p))
           ∧ (∀ v, b !! "id" = Some v → v ≠ JNull → as_key v = Some (id p))
           ∧ (∀ v k, b !! "id" = Some v
                     → parse_int (toString (Some v)) = Some k → id p = k)
           ∧ (b !! "id" = None → id p = sequence w).
Proof.
  intros Hvalid.
  assert (server {| http_method := POST; http_path := []; http_body := b |} w
          = bind (Product_create b)
                 (λ product, ret (Some {| status := 201;
                                          json := data_product product |})) w)
    as Hserver.
  { rewrite server_POST, Hvalid. unfold createProduct, bind. cbn [req_body].
    by destruct (Product_create b w) as [w1 [p | e]]. }
  split; [done |]. split.
  { rewrite Hserver. unfold bind.
    pose proof (Product_create_calls b w) as Hcalls.
    by destruct (Product_create b w) as [w1 [p | e]]. }
  intros w' res. rewrite Hserver. intros Hrun.
  apply bind_fulfilled in Hrun as (p & w1 & Hcreate & [= <- <-]).
  apply Product_create_fulfilled in Hcreate
    as (Hn & Hpr & Hav & Hkey & _ & Ht & _ & _).
  exists p. split_and!; try done.
  - rewrite Ht. apply lookup_insert_eq.
  - intros s Hs. rewrite Hs in Hn. cbn in Hn.
    by rewrite (as_text_toString _ _ Hn).
  - intros n Hp. rewrite Hp in Hpr. cbn in Hpr.
    by apply as_number_JNum.
  - intros a Ha. rewrite Ha in Hav. rewrite as_boolean_JBool in Hav. congruence.
  - intros Ha. by rewrite Ha in Hav.
  - intros v Ha. by rewrite Ha in Hav.
  - intros v Hv Hnull. rewrite Hv in Hkey. by destruct v.
  - intros v k Hv Hk. rewrite Hv in Hkey. destruct v; try discriminate Hk.
    all: by eapply as_key_numeral.
  - intros Hv. by rewrite Hv in Hkey.
Qed.

(** ** Every way a request is served *)

Lemma dispatch_unmatched (routes : list Route) (r : HttpRequest) (w : World) :
  (∀ route, route ∈ routes → ¬ route_matches route r) →
  dispatch routes r w = (w, Fulfilled None).
Proof.
  induction routes as [|route routes IH]; intros Hno; [done |].
  rewrite dispatch_skip.
  - apply IH. intros route' Hin. apply Hno. by apply list_elem_of_further.
  - destruct (handles_method route (http_method r)) eqn:Hm; [| by left].
    right. destruct (match_path _ _) eqn:Hp; [| done].
    destruct (Hno route (list_elem_of_here _ _)). split; [done |]. by rewrite Hp.
Qed.

Lemma dispatch_matched (routes : list Route) (r : HttpRequest) (w : World) :
  Forall (λ route, ∃ h, handle h ∈ stack route) routes →
  Exists (λ route, route_matches route r) routes →
  (dispatch routes r w).2 ≠ Fulfilled None.
Proof.
  induction 1 as [|route routes Hh Hall IH]; intros Hex; [by inversion Hex |].
  destruct (handles_method route (http_method r)) eqn:Hm.
  - destruct (match_path (route_path route) (http_path r)) as [ps|] eqn:Hp.
    + rewrite (dispatch_first _ _ _ ps) by done. by apply run_stack_responds.
    + rewrite dispatch_skip by by right. apply IH.
      inversion Hex as [? ? [_ [? Hsome]] | ]; subst; [congruence | done].
  - rewrite dispatch_skip by by left. apply IH.
    inversion Hex as [? ? [? _] | ]; subst; [congruence | done].
Qed.

Lemma router_stacks_handle :
  Forall (λ route, ∃ h, handle h ∈ stack route) router.
Proof.
  unfold router.
  repeat (apply Forall_cons_2;
    [eexists; repeat first [apply list_elem_of_here | apply list_elem_of_further] |]).
  apply Forall_nil_2.
Qed.

(** The request shapes no route matches. *)
Lemma unrouted_shapes (m : Method) (segments : list string) (b : gmap string JValue) :
  match m, segments with
  | (GET | POST | HEAD), [] => False
  | (GET | PUT | PATCH | DELETE | HEAD), [String _ _] => False
  | _, _ => True
  end →
  ∀ route, route ∈ router →
    ¬ route_matches route {| http_method := m; http_path := segments; http_body := b |}.
Proof.
  intros Hshape route Hin [Hm [ps Hp]]. cbn [http_method http_path] in Hm, Hp.
  unfold router in Hin. rewrite !elem_of_cons, elem_of_nil in Hin.
  destruct Hin as [-> | [-> | [-> | [-> | [-> | [-> | []]]]]]];
    destruct m; try discriminate Hm;
    destruct segments as [|[|c s] [|? ?]]; cbn in Hp, Hshape; done.
Qed.

Lemma server_invalid_id (m : Method) (segment : string) (b : gmap string JValue)
    (w : World) :
  m ≠ POST → segment ≠ "" → Validator.isInt segment = false →
  server {| http_method := m; http_path := [segment]; http_body := b |} w
  = (w, Fulfilled (Some
      {| status := 400;
         json := errors_list
           (invalid_id_entry segment
            :: if decide (m = PUT) then body_errors put_product_route b else []) |})).
Proof.
  intros Hm Hs Hint. destruct segment as [|c s]; [done |].
  destruct m; try done; resolve_route.
  - cbn [get_product_route stack run_stack http_body].
    by rewrite run_chain_id, Hint.
  - cbn [put_product_route stack run_stack http_body].
    rewrite run_chain_id, Hint. cbn [app run_stack].
    by rewrite decide_True, <- (put_body_errors {[ "id" := String c s ]}).
  - cbn [patch_product_route stack run_stack http_body].
    by rewrite run_chain_id, Hint.
  - cbn [delete_product_route stack run_stack http_body].
    by rewrite run_chain_id, Hint.
  - cbn [get_product_route stack run_stack http_body].
    by rewrite run_chain_id, Hint.
Qed.

Lemma updateProduct_found (req : Request) (segment : string) (k : Z)
    (c : Columns) (w : World) :
  req_params req !! "id" = Some segment →
  parse_int segment = Some k →
  table w !! k = Some c →
  match replaced_columns (req_body req) c with
  | Some c' =>
    updateProduct req w
    = (after (<[k := c']> (table w))
             [call_findByPk segment; call_update k (req_body req); call_save k] w,
       Fulfilled {| status := 200;
                    json := data_updated (instance k c') (req_body req) |})
  | None =>
    ∃ column,
      updateProduct req w
      = (add_call (call_update k (req_body req))
           (add_call (call_findByPk segment) w),
         Rejected (type_violation column))
  end.
Proof.
  intros Hid Hk Hrow. pose proof (table_lookup_in_range _ _ _ Hrow) as Hrange.
  unfold updateProduct, bind.
  rewrite Hid, (Product_findByPk_found _ k c) by done.
  unfold replaced_columns, product_update, bind, log, assign, assigned.
  cbn [instance id name price availability add_call table sequence calls].
  assert (∀ column,
    ∃ column' : string,
      (add_call (call_update k (req_body req)) (add_call (call_findByPk segment) w),
       @Rejected Response (type_violation column))
      = (add_call (call_update k (req_body req))
           (add_call (call_findByPk segment) w),
         Rejected (type_violation column'))) as Hrej.
  { intros column. by exists column. }
  destruct (req_body req !! "name") as [vn|]; cbn [or_reject ret reject mbind option_bind];
    [destruct (as_text vn) as [n|]; cbn [or_reject ret reject mbind option_bind];
       [| apply Hrej] |];
  (destruct (req_body req !! "price") as [vp|]; cbn [or_reject ret reject mbind option_bind];
    [destruct (as_number vp) as [pr|]; cbn [or_reject ret reject mbind option_bind];
       [| apply Hrej] |]);
  (destruct (req_body req !! "availability") as [va|];
     cbn [or_reject ret reject mbind option_bind];
    [destruct (as_boolean va) as [a|]; cbn [or_reject ret reject mbind option_bind];
       [| apply Hrej] |]);
  unfold write_back, bind, get_table, put_table; cbn; rewrite Hrow; cbn;
  unfold product_save, write_back, bind, log, get_table, put_table; cbn;
  rewrite storable_insert by done; rewrite lookup_insert_eq; cbn;
  (apply (f_equal2 pair); [| done]);
  (apply world_eq; cbn; [| done | by rewrite <- !app_assoc]);
  by rewrite insert_insert_eq.
Qed.

(** Every run of the router is one of the ways of [Serves]. *)
Lemma server_serves (r : HttpRequest) (w : World) :
  Serves r w (server r w).1 (server r w).2.
Proof.
  destruct r as [m segments b].
  assert (
    (∀ route, route ∈ router →
       ¬ route_matches route {| http_method := m; http_path := segments;
                                http_body := b |}) →
    Serves {| http_method := m; http_path := segments; http_body := b |} w
      (server {| http_method := m; http_path := segments; http_body := b |} w).1
      (server {| http_method := m; http_path := segments; http_body := b |} w).2)
    as Hunrouted.
  { intros Hno. unfold server. rewrite dispatch_unmatched by done.
    by apply serves_unrouted. }
  assert (∀ m', m' = GET ∨ m' = HEAD →
            server {| http_method := m'; http_path := segments; http_body := b |}
            = server {| http_method := GET; http_path := segments; http_body := b |})
    as Hread.
  { intros m' [-> | ->]; [done | apply server_HEAD]. }
  destruct segments as [|segment [|segment' segments]].
  - destruct m; try (apply Hunrouted, unrouted_shapes; done).
    + replace (server _ w) with
        (add_call call_findAll w,
         Fulfilled (Some {| status := 200;
                            json := data_products
                              (merge_sort by_id_desc (all_products (table w))) |}))
        by (symmetry; by resolve_route).
      apply serves_list. by left.
    + rewrite server_POST.
      destruct (body_errors post_product_route b) as [|e es] eqn:Hval.
      * unfold createProduct, bind. cbn [req_body].
        destruct (Product_create b w) as [w' [p | e]] eqn:Hcreate.
        -- by apply serves_created.
        -- by apply serves_create_rejected.
      * by apply serves_invalid_post.
    + rewrite Hread by by right.
      replace (server _ w) with
        (add_call call_findAll w,
         Fulfilled (Some {| status := 200;
                            json := data_products
                              (merge_sort by_id_desc (all_products (table w))) |}))
        by (symmetry; by resolve_route).
      apply serves_list. by right.
  - destruct segment as [|c s];
      [apply Hunrouted, unrouted_shapes; by destruct m |].
    destruct (decide (m = POST)) as [-> | Hm];
      [apply Hunrouted, unrouted_shapes; done |].
    destruct (Validator.isInt (String c s)) eqn:Hint.
    + destruct (isInt_parse_int _ Hint) as [k Hk].
      assert (req_params {| req_params := {[ "id" := String c s ]}; req_body := b |}
                !! "id" = Some (String c s)) as Hid by apply lookup_singleton_eq.
      destruct (decide (in_integer_range k)) as [Hrange | Hrange].
      2: { destruct m; try done.
           - rewrite (server_GET_id _ k) by done. unfold bind.
             rewrite (getProductById_out_of_range _ (String c s) k) by done.
             by apply (serves_out_of_range _ _ k).
           - rewrite (server_PUT_id _ k) by done.
             destruct (body_errors put_product_route b) as [|e es] eqn:Hval;
               [| by apply (serves_invalid_put _ k)].
             unfold bind.
             rewrite (updateProduct_out_of_range _ (String c s) k) by done.
             by apply (serves_out_of_range _ _ k).
           - rewrite (server_PATCH_id _ k) by done. unfold bind.
             rewrite (updateAvailability_out_of_range _ (String c s) k) by done.
             by apply (serves_out_of_range _ _ k).
           - rewrite (server_DELETE_id _ k) by done. unfold bind.
             rewrite (deleteProduct_out_of_range _ (String c s) k) by done.
             by apply (serves_out_of_range _ _ k).
           - rewrite Hread by by right.
             rewrite (server_GET_id _ k) by done. unfold bind.
             rewrite (getProductById_out_of_range _ (String c s) k) by done.
             by apply (serves_out_of_range _ _ k). }
      destruct (table w !! k) as [row|] eqn:Hrow.
      * destruct m; try done.
        -- rewrite (server_GET_id _ k) by done. unfold bind.
           rewrite (getProductById_found _ (String c s) k row) by done.
           apply (serves_get _ _ k row); [by left | done | done].
        -- rewrite (server_PUT_id _ k) by done.
           destruct (body_errors put_product_route b) as [|e es] eqn:Hval;
             [| by apply (serves_invalid_put _ k)].
           unfold bind.
           pose proof (updateProduct_found _ (String c s) k row w Hid Hk Hrow) as Hup.
           cbn [req_body] in Hup.
           destruct (replaced_columns b row) as [row'|] eqn:Hrep.
           ++ rewrite Hup. by apply (serves_replaced _ k row).
           ++ destruct Hup as [column ->].
              by apply (serves_replace_rejected _ k row).
        -- rewrite (server_PATCH_found _ k row) by done.
           by apply (serves_toggled _ k row).
        -- rewrite (server_DELETE_id _ k) by done. unfold bind.
           rewrite (deleteProduct_found _ (String c s) k row) by done.
           by apply (serves_deleted _ k row).
        -- rewrite Hread by by right.
           rewrite (server_GET_id _ k) by done. unfold bind.
           rewrite (getProductById_found _ (String c s) k row) by done.
           apply (serves_get _ _ k row); [by right | done | done].
      * destruct m; try done.
        -- rewrite (server_GET_id _ k) by done. unfold bind.
           rewrite (getProductById_not_found _ (String c s) k) by done.
           by apply (serves_not_found _ _ k).
        -- rewrite (server_PUT_id _ k) by done.
           destruct (body_errors put_product_route b) as [|e es] eqn:Hval;
             [| by apply (serves_invalid_put _ k)].
           unfold bind.
           rewrite (updateProduct_not_found _ (String c s) k) by done.
           by apply (serves_not_found _ _ k).
        -- rewrite (server_PATCH_id _ k) by done. unfold bind.
           rewrite (updateAvailability_not_found _ (String c s) k) by done.
           by apply (serves_not_found _ _ k).
        -- rewrite (server_DELETE_id _ k) by done. unfold bind.
           rewrite (deleteProduct_not_found _ (String c s) k) by done.
           by apply (serves_not_found _ _ k).
        -- rewrite Hread by by right.
           rewrite (server_GET_id _ k) by done. unfold bind.
           rewrite (getProductById_not_found _ (String c s) k) by done.
           by apply (serves_not_found _ _ k).
    + rewrite server_invalid_id by done. by apply serves_invalid_id.
  - apply Hunrouted, unrouted_shapes. by destruct m, segment.
Qed.

Lemma serves_of_run (r : HttpRequest) (w w' : World)
    (out : Settled (option Response)) :
  server r w = (w', out) → Serves r w w' out.
Proof. intros Hrun. pose proof (server_serves r w) as Hs. by rewrite Hrun in Hs. Qed.

Lemma bind_run {A B} (m : M A) (f : A → M B) (w w' : World) (out : Settled B) :
  bind m f w = (w', out) →
  (∃ a w1, m w = (w1, Fulfilled a) ∧ f a w1 = (w', out))
  ∨ (∃ e, m w = (w', Rejected e) ∧ out = Rejected e).
Proof.
  unfold bind. destruct (m w) as [w1 [a | e]].
  - intros Hf. left. by exists a, w1.
  - intros [= <- <-]. right. by exists e.
Qed.

Lemma or_reject_run {A} (e : StorageError) (o : option A) (w w' : World)
    (out : Settled A) :
  or_reject e o w = (w', out) →
  w' = w ∧ (out = Rejected e ∨ ∃ a, out = Fulfilled a).
Proof. destruct o; intros [= <- <-]; eauto. Qed.

(** What a run of [Product.create] does to the world, however it ends. *)
Lemma Product_create_world (values : gmap string JValue) (w w' : World)
    (out : Settled Product) :
  Product_create values w = (w', out) →
  calls w' = calls w ++ [call_create values]
  ∧ sequence w ≤ sequence w' ≤ sequence w + 1
  ∧ match out with
    | Fulfilled p => table w !! id p = None
                     ∧ table w' = <[id p := columns p]> (table w)
    | Rejected e => table w' = table w
                    ∧ (e = unique_violation ∨ e = integer_out_of_range
                       ∨ ∃ column, e = type_violation column)
    end.
Proof.
  unfold Product_create. intros Hrun.
  apply bind_run in Hrun as [([] & w1 & [= <-] & Hrun) | (e & [=] & _)].
  apply bind_run in Hrun as [(n & w1 & Hn & Hrun) | (e & Hn & ->)];
    apply or_reject_run in Hn as [-> Hn];
    [| destruct Hn as [[= ->] | [? [=]]]; cbn; split_and!; eauto; lia].
  apply bind_run in Hrun as [(pr & w1 & Hpr & Hrun) | (e & Hpr & ->)];
    apply or_reject_run in Hpr as [-> Hpr];
    [| destruct Hpr as [[= ->] | [? [=]]]; cbn; split_and!; eauto; lia].
  apply bind_run in Hrun as [(a & w1 & Ha & Hrun) | (e & Ha & ->)].
  2: { destruct (values !! "availability"); [| discriminate].
       apply or_reject_run in Ha as [-> [[= ->] | [? [=]]]].
       cbn; split_and!; eauto; lia. }
  assert (w1 = add_call (call_create values) w) as ->.
  { destruct (values !! "availability").
    - by apply or_reject_run in Ha as [-> _].
    - by injection Ha as <- _. }
  apply bind_run in Hrun as [(k & w1 & Hk & Hrun) | (e & Hk & ->)].
  2: { assert (w' = add_call (call_create values) w
               ∧ ∃ column, e = type_violation column) as [-> [column ->]].
       { destruct (values !! "id") as [[] |]; try discriminate;
           apply or_reject_run in Hk as [-> [[= ->] | [? [=]]]]; eauto. }
       cbn; split_and!; eauto; lia. }
  assert (table w1 = table w ∧ calls w1 = calls w ++ [call_create values]
          ∧ sequence w ≤ sequence w1 ≤ sequence w + 1) as (Ht & Hc & Hseq).
  { destruct (values !! "id") as [[] |];
      first [ injection Hk as <- _; cbn; split_and!; (done || lia)
            | apply or_reject_run in Hk as [-> _]; cbn; split_and!; (done || lia) ]. }
  unfold insert_row in Hrun.
  destruct (decide (in_integer_range k)) as [Hrange |].
  2: { injection Hrun as <- <-. split_and!; eauto; lia. }
  apply bind_run in Hrun as [(t & w2 & [= <- <-] & Hrun) | (e & [=] & _)].
  rewrite Ht in Hrun. destruct (table w !! k) eqn:Hfree.
  - injection Hrun as <- <-. split_and!; eauto; lia.
  - injection Hrun as <- <-.
    cbn [set_table table sequence calls instance id columns name price
         availability col_name col_price col_availability].
    rewrite <- Ht, storable_insert, Ht by done. split_and!; eauto; lia.
Qed.

(** The keys of the rows at hand are keys the column can hold. *)
Ltac keys_in_range :=
  repeat match goal with
         | H : table ?w !! ?k = Some _ |- _ =>
           lazymatch goal with
           | _ : in_integer_range k |- _ => fail
           | _ => pose proof (table_lookup_in_range _ _ _ H)
           end
         end.

(** The table a request leaves, with the rows it wrote. *)
Ltac tables := rewrite ?storable_insert, ?storable_delete by done.

Ltac serves_cases r w H :=
  pose proof (server_serves r w) as H;
  destruct (server r w) as [?w' ?out]; cbn [fst snd] in *;
  inversion H; subst; clear H; keys_in_range;
  try match goal with H' : _ = GET ∨ _ = HEAD |- _ => by destruct H' end.

(** ** The router as a whole *)

(** X1.  Of the requests that reach it, the router answers eight shapes
    and no other: GET, HEAD and POST on the root, and GET, HEAD, PUT, PATCH
    and DELETE on a path of one non-empty segment.  Every other request
    (POST on [/:id], PUT, PATCH or DELETE on the root, a deeper path)
    passes through without a response and without any effect on the
    store.  No route is registered for HEAD: a HEAD request is served by
    the route of GET, with the same outcome and the same effect on the
    store. *)
Theorem routes_answered (r : HttpRequest) (w : World) :
  match http_method r, http_path r with
  | (GET | POST | HEAD), []
  | (GET | PUT | PATCH | DELETE | HEAD), [String _ _] =>
    (server r w).2 ≠ Fulfilled None
  | _, _ => server r w = (w, Fulfilled None)
  end
  ∧ (Forall (λ route, route_method route ≠ HEAD) router
     ∧ server {| http_method := HEAD; http_path := http_path r;
                 http_body := http_body r |} w
       = server {| http_method := GET; http_path := http_path r;
                   http_body := http_body r |} w).
Proof.
  split; [| split; [unfold router; repeat constructor; discriminate
                   | by rewrite server_HEAD]].
  destruct r as [m segments b]. cbn [http_method http_path].
  assert (match m, segments with
          | (GET | POST | HEAD), []
          | (GET | PUT | PATCH | DELETE | HEAD), [String _ _] => False
          | _, _ => True
          end →
          server {| http_method := m; http_path := segments; http_body := b |} w
          = (w, Fulfilled None)) as Hno.
  { intros Hshape. apply dispatch_unmatched. by apply unrouted_shapes. }
  destruct m, segments as [|[|c s] [|? ?]]; try (by apply Hno);
    (apply dispatch_matched; [apply router_stacks_handle |]);
    unfold router;
    repeat first [ apply Exists_cons_hd; split; [reflexivity | by eexists]
                 | apply Exists_cons_tl ].
Qed.

(** X2.  The statuses and payloads of the responses, by method: 400 always
    carries a non-empty list of entries; 404 always carries
    [{error: "Producto no encontrado"}] and is never the answer to POST; 201
    is the answer of POST alone, with the product; 200 carries the list on
    GET [/], the product on GET [/:id] and PATCH, the instance as the body
    of the request updated it on PUT, and the string ["Producto Eliminado"]
    on DELETE; HEAD is answered as GET.  No other status is produced. *)
Theorem responses_by_method (r : HttpRequest) (w w' : World) (res : Response) :
  server r w = (w', Fulfilled (Some res)) →
  (status res = 400 ∧ ∃ e es, json res = errors_list (e :: es))
  ∨ (status res = 404 ∧ json res = error_text "Producto no encontrado"
     ∧ http_method r ≠ POST)
  ∨ (status res = 201 ∧ http_method r = POST ∧ ∃ p, json res = data_product p)
  ∨ (status res = 200
     ∧ match http_method r with
       | GET | HEAD => (http_path r = [] ∧ ∃ ps, json res = data_products ps)
                       ∨ (http_path r ≠ [] ∧ ∃ p, json res = data_product p)
       | PUT => ∃ p, json res = data_updated p (http_body r)
       | PATCH => ∃ p, json res = data_product p
       | DELETE => json res = data_text "Producto Eliminado"
       | POST => False
       end).
Proof.
  intros Hrun. apply serves_of_run in Hrun.
  inversion Hrun; subst; cbn;
    repeat match goal with
           | H : _ = GET ∨ _ = HEAD |- _ => destruct H as [-> | ->]
           end.
  - right. right. right. split; [done |]. left. eauto.
  - right. right. right. split; [done |]. left. eauto.
  - left. eauto.
  - left. eauto.
  - left. eauto.
  - right. left. done.
  - right. right. right. split; [done |]. right. eauto.
  - right. right. right. split; [done |]. right. eauto.
  - right. right. left. eauto.
  - right. right. right. eauto.
  - right. right. right. eauto.
  - right. right. right. eauto.
Qed.

(** X3.  A request that is refused does not reach past the lookup: with
    status 400 the world is exactly as before (no call to the store was
    made), and with status 404 the single [findByPk] of the id segment is
    all that happened. *)
Theorem refusals_leave_the_store (r : HttpRequest) (w w' : World) (res : Response) :
  server r w = (w', Fulfilled (Some res)) →
  (status res = 400 → w' = w)
  ∧ (status res = 404 →
     ∃ segment, http_path r = [segment]
                ∧ w' = add_call (call_findByPk segment) w).
Proof.
  intros Hrun. apply serves_of_run in Hrun.
  inversion Hrun; subst; cbn; split; intros; (done || eauto).
Qed.

(** X4.  GET never writes, and neither does HEAD: whatever the path and
    the body, the table and the key sequence after the request are those
    of before.  The store being reachable, the request ends with a response
    or falls through, unless its id is an integer outside the range of
    the key column: then the lookup is rejected by the store and the
    request is not answered. *)
Theorem get_is_read_only (r : HttpRequest) (w : World) :
  http_method r = GET ∨ http_method r = HEAD →
  table (server r w).1 = table w
  ∧ sequence (server r w).1 = sequence w
  ∧ ((∃ res, (server r w).2 = Fulfilled res)
     ∨ (∃ segment k,
          http_path r = [segment] ∧ parse_int segment = Some k
          ∧ ¬ in_integer_range k
          ∧ (server r w).2 = Rejected integer_out_of_range))
  ∧ ((∀ segment k, http_path r = [segment] → parse_int segment = Some k
                   → in_integer_range k)
     → ∃ res, (server r w).2 = Fulfilled res).
Proof.
  intros Hm.
  serves_cases r w Hs; cbn in Hm |- *; try (by destruct Hm);
    (split_and!; [done | done | eauto 10 | intros Hin; eauto]).
  exfalso. eauto.
Qed.

(** X5.  No request is rejected for a malformed id: the id rule keeps every
    text that is not an integer numeral away from [findByPk].  The store
    being reachable, the requests that end in a rejected promise are of
    three kinds: a POST [/] whose row the store refuses; a request on
    [/:id] whose id is an integer outside the range of the key column,
    whose lookup the store refuses; and a PUT [/:id] one of whose values
    does not fit its column. *)
Theorem rejections (r : HttpRequest) (w : World) (e : StorageError) :
  (server r w).2 = Rejected e →
  e ≠ invalid_integer_text
  ∧ ((http_method r = POST ∧ http_path r = [])
     ∨ (http_method r ≠ POST ∧ e = integer_out_of_range
        ∧ ∃ segment k, http_path r = [segment] ∧ parse_int segment = Some k
                       ∧ ¬ in_integer_range k)
     ∨ (http_method r = PUT ∧ ∃ column, e = type_violation column)).
Proof.
  intros Hout. serves_cases r w Hs; try discriminate; cbn.
  - simplify_eq. split; [done |]. right. left. eauto 10.
  - match goal with H : Product_create _ _ = _ |- _ =>
      apply Product_create_world in H as (_ & _ & _ & [-> | [-> | [column ->]]]) end;
      simplify_eq; (split; [done | by left]).
  - simplify_eq. split; [done |]. right. right. eauto.
Qed.

(** X6.  The calls a request makes to the store, in order: none; or one
    [findAll]; or one [create] with the body; or the [findByPk] of the id
    segment, followed by nothing, by [save], by [destroy], by [update], or
    by [update] and [save] on the key the segment denotes.  So a request
    makes at most three calls, and every write to a row comes after the
    lookup of that row in the same request. *)
Theorem store_calls_of_a_request (r : HttpRequest) (w : World) :
  ∃ cs, calls (server r w).1 = calls w ++ cs
    ∧ (cs = [] ∨ cs = [call_findAll] ∨ cs = [call_create (http_body r)]
       ∨ ∃ segment k,
           http_path r = [segment] ∧ parse_int segment = Some k
           ∧ (cs = [call_findByPk segment]
              ∨ cs = [call_findByPk segment; call_save k]
              ∨ cs = [call_findByPk segment; call_destroy k]
              ∨ cs = [call_findByPk segment; call_update k (http_body r)]
              ∨ cs = [call_findByPk segment; call_update k (http_body r);
                      call_save k])).
Proof.
  serves_cases r w Hs; cbn; rewrite <- ?app_assoc;
    try (exists []; split; [by rewrite app_nil_r | by left]);
    try (match goal with H : Product_create _ _ = _ |- _ =>
           apply Product_create_world in H as (Hc & _) end;
         eexists; split; [exact Hc | eauto]);
    (eexists; split; [reflexivity |]); eauto 12.
Qed.

(** ** What each kind of request can change *)

(** X7.  PUT and PATCH never add or remove a row and never move the key
    sequence, whatever the outcome (400, 404, 200 or a rejected promise);
    and a row whose key is not the one the id segment denotes is left as
    it was. *)
Theorem updates_keep_the_rows (r : HttpRequest) (w : World) :
  http_method r = PUT ∨ http_method r = PATCH →
  dom (table (server r w).1) = dom (table w)
  ∧ sequence (server r w).1 = sequence w
  ∧ ∀ k', (∀ segment, http_path r = [segment] → parse_int segment ≠ Some k') →
          table (server r w).1 !! k' = table w !! k'.
Proof.
  intros Hm. serves_cases r w Hs; cbn in Hm |- *; tables;
    try (by destruct Hm); try done.
  - split_and!; [by apply dom_insert_lookup_L | done |].
    intros k' Hk'. apply lookup_insert_ne. intros ->. by apply (Hk' segment).
  - split_and!; [by apply dom_insert_lookup_L | done |].
    intros k' Hk'. apply lookup_insert_ne. intros ->. by apply (Hk' segment).
Qed.

Lemma id_route_matches (m : Method) (segment : string) (k : Z)
    (b : gmap string JValue) :
  m ≠ POST →
  parse_int segment = Some k →
  ∃ route, route ∈ router
           ∧ route_matches route {| http_method := m; http_path := [segment];
                                    http_body := b |}.
Proof.
  intros Hm Hk. apply parse_int_isInt in Hk.
  destruct segment as [|c s]; [done |].
  destruct m; try done;
    [exists get_product_route | exists put_product_route
    | exists patch_product_route | exists delete_product_route
    | exists get_product_route];
    (split; [unfold router; set_solver | split; [reflexivity | by eexists]]).
Qed.

Lemma delete_run (segments : list string) (b : gmap string JValue) (w : World) :
  let r := {| http_method := DELETE; http_path := segments; http_body := b |} in
  table (server r w).1 ⊆ table w
  ∧ sequence (server r w).1 = sequence w
  ∧ (∀ k', (∀ segment, segments = [segment] → parse_int segment ≠ Some k') →
           table (server r w).1 !! k' = table w !! k')
  ∧ ((∀ segment k, segments = [segment] → parse_int segment = Some k →
                   table w !! k = None) →
     table (server r w).1 = table w)
  ∧ ∀ segment k, segments = [segment] → parse_int segment = Some k →
                 table (server r w).1 !! k = None.
Proof.
  intros r. unfold r. clear r.
  serves_cases {| http_method := DELETE; http_path := segments; http_body := b |} w Hs;
    cbn; tables; try done.
  - split_and!; try done. intros segment k -> Hk.
    destruct (id_route_matches DELETE segment k b) as (route & Hin & Hmatch);
      [done | done |].
    match goal with H : ∀ route, route ∈ router → _ |- _ =>
      by destruct (H route Hin) end.
  - split_and!; try done. intros segment' k [= <-] Hk.
    apply parse_int_isInt in Hk. congruence.
  - split_and!; try done. intros segment' k' [= <-] Hk. simplify_eq.
    by apply table_lookup_out_of_range.
  - split_and!; try done. intros segment' k' [= <-] Hk. congruence.
  - split_and!; [apply delete_subseteq | done | | |].
    + intros k' Hk'. apply lookup_delete_ne. intros ->. by apply (Hk' segment).
    + intros Hgone. by rewrite (Hgone segment k) in *.
    + intros segment' k' [= <-] Hk. simplify_eq. apply lookup_delete_eq.
Qed.

(** X8.  DELETE removes at most the row the id segment denotes: every row
    after it was there before with the same columns, a row under another
    key is left as it was, and the key sequence does not move.  A second
    identical DELETE changes nothing more. *)
Theorem delete_touches_one_row (r : HttpRequest) (w : World) :
  http_method r = DELETE →
  table (server r w).1 ⊆ table w
  ∧ sequence (server r w).1 = sequence w
  ∧ (∀ k', (∀ segment, http_path r = [segment] → parse_int segment ≠ Some k') →
           table (server r w).1 !! k' = table w !! k')
  ∧ table (server r (server r w).1).1 = table (server r w).1.
Proof.
  destruct r as [m segments b]. cbn [http_method http_path]. intros ->.
  destruct (delete_run segments b w) as (Hsub & Hseq & Hframe & _ & Hgone).
  split_and!; try done.
  by apply delete_run.
Qed.

(** X9.  POST changes the table by at most one new row: every row that was
    stored is still stored, with the same columns, whatever the outcome;
    and the key sequence moves forward by one step at most. *)
Theorem create_adds_at_most_one_row (r : HttpRequest) (w : World) :
  http_method r = POST →
  table w ⊆ table (server r w).1
  ∧ (size (table (server r w).1) ≤ S (size (table w)))%nat
  ∧ sequence w ≤ sequence (server r w).1 ≤ sequence w + 1.
Proof.
  intros Hm. serves_cases r w Hs; cbn in Hm |- *; try done;
    try (split_and!; (done || lia)).
  - match goal with H : Product_create _ _ = _ |- _ =>
      apply Product_create_world in H as (_ & Hseq & Hfree & ->) end.
    split; [by apply insert_subseteq |]. split; [| done].
    by rewrite map_size_insert_None.
  - match goal with H : Product_create _ _ = _ |- _ =>
      apply Product_create_world in H as (_ & Hseq & -> & _) end.
    split_and!; (done || lia).
Qed.

(** ** Full update *)

Lemma replaced_columns_again (values : gmap string JValue) (c c' : Columns) :
  replaced_columns values c = Some c' → replaced_columns values c' = Some c'.
Proof.
  unfold replaced_columns, assigned. destruct c as [n p a], c' as [n' p' a'].
  cbn.
  destruct (values !! "name") as [vn|]; cbn;
    [destruct (as_text vn); cbn; [| done] |];
  (destruct (values !! "price") as [vp|]; cbn;
    [destruct (as_number vp); cbn; [| done] |]);
  (destruct (values !! "availability") as [va|]; cbn;
    [destruct (as_boolean va); cbn; [| done] |]);
  by intros [= -> -> ->].
Qed.

(** X10.  PUT is idempotent: when a PUT is answered 200, the same PUT sent
    again is answered 200 with the same payload, and leaves the table as
    the first one left it. *)
Theorem put_is_idempotent (segment : string) (b : gmap string JValue)
    (w w1 : World) (res : Response) :
  let r := {| http_method := PUT; http_path := [segment]; http_body := b |} in
  server r w = (w1, Fulfilled (Some res)) →
  status res = 200 →
  (server r w1).2 = Fulfilled (Some res)
  ∧ table (server r w1).1 = table w1.
Proof.
  intros r Hrun Hstatus. unfold r in *. clear r.
  apply serves_of_run in Hrun.
  inversion Hrun as [ | | | | | | | ? ? ? ? ? ? Hread | | | ? k c c' ? ? Hk Hval Hrow Hrep | | | ];
    subst; try discriminate Hstatus; [by destruct Hread |].
  pose proof (table_lookup_in_range _ _ _ Hrow) as Hrange.
  apply replaced_columns_again in Hrep.
  set (w1 := after (<[k := c']> (table w))
                   [call_findByPk segment; call_update k b; call_save k] w).
  assert (table w1 !! k = Some c') as Hrow1.
  { unfold w1. rewrite table_after_insert by done. apply lookup_insert_eq. }
  rewrite (server_PUT_id _ k), Hval by done. unfold bind.
  pose proof (updateProduct_found
                {| req_params := {[ "id" := segment ]}; req_body := b |}
                segment k c' w1 (lookup_singleton_eq _ _) Hk Hrow1) as Hup.
  cbn [req_body] in Hup. rewrite Hrep in Hup. rewrite Hup.
  split; [done |]. cbn [fst ret]. rewrite table_after_insert by done.
  unfold w1. rewrite table_after_insert by done. apply insert_insert_eq.
Qed.

(** ** What the rules accept *)

Lemma isNumeric_not_empty (s : string) :
  Validator.isNumeric s = true → Validator.isEmpty s = false.
Proof. by destruct s. Qed.

Lemma name_chain_passes (ps : gmap string string) (b : gmap string JValue) :
  run_chain (withMessage "El nombre del producto no puede ir vacio"
               (notEmpty (body "name")))
    {| req_params := ps; req_body := b |} = []
  ↔ toString (b !! "name") ≠ "".
Proof.
  unfold run_chain, rule_errors. cbn.
  destruct (toString (b !! "name")); cbn; split; done.
Qed.

Lemma price_chain_passes (ps : gmap string string) (b : gmap string JValue) :
  run_chain (withMessage "Precio no valido"
               (custom (λ value, gt_zero value)
                  (withMessage "El nombre del producto no puede ir vacio"
                     (notEmpty (withMessage "Valor no válido"
                                  (isNumeric (body "price")))))))
    {| req_params := ps; req_body := b |} = []
  ↔ Validator.isNumeric (toString (b !! "price")) = true
    ∧ gt_zero (b !! "price") = true.
Proof.
  unfold run_chain, rule_errors. cbn.
  destruct (Validator.isNumeric (toString (b !! "price"))) eqn:Hnum; cbn.
  - rewrite (isNumeric_not_empty _ Hnum). cbn.
    destruct (gt_zero (b !! "price")); cbn; split; (done || by intros []).
  - split; (done || by intros []).
Qed.

Lemma availability_chain_passes (ps : gmap string string)
    (b : gmap string JValue) :
  run_chain (withMessage "El campo no puede ir vacio"
               (isBoolean (body "availability")))
    {| req_params := ps; req_body := b |} = []
  ↔ Validator.isBoolean (toString (b !! "availability")) = true.
Proof.
  unfold run_chain, rule_errors. cbn.
  destruct (Validator.isBoolean (toString (b !! "availability")));
    cbn; split; done.
Qed.

(** X11.  What POST [/] accepts, for a body whose [name] and [price] are
    JSON scalars or missing (the values of [JValue]; an array, which
    express-validator checks element by element, is outside the scope):
    the body passes validation exactly when the name prints as a non-empty
    text, the price prints as a numeral (digits, with an optional sign and
    an optional fraction) and the price is greater than zero.  The
    not-empty rule on the price never decides: a price that is empty is
    not numeric either. *)
Theorem post_accepts (b : gmap string JValue) :
  (body_errors post_product_route b = []
   ↔ toString (b !! "name") ≠ ""
     ∧ Validator.isNumeric (toString (b !! "price")) = true
     ∧ gt_zero (b !! "price") = true)
  ∧ (fails check_notEmpty (b !! "price") = true
     → fails check_isNumeric (b !! "price") = true).
Proof.
  split.
  - rewrite <- (post_body_errors ∅). cbn zeta.
    rewrite app_nil, name_chain_passes, price_chain_passes. done.
  - cbn. by destruct (toString (b !! "price")).
Qed.

(** X12.  What PUT [/:id] accepts, for a body whose [name], [price] and
    [availability] are JSON scalars or missing (the values of [JValue]; an
    array, which express-validator checks element by element, is outside
    the scope): past the id rule, the body passes validation exactly when
    the name prints as a non-empty text, the price prints as a numeral and
    is greater than zero, and the availability prints as one of ["true"],
    ["false"], ["1"], ["0"].  A body that passes gives all three fields. *)
Theorem put_accepts (b : gmap string JValue) :
  (body_errors put_product_route b = []
   ↔ toString (b !! "name") ≠ ""
     ∧ Validator.isNumeric (toString (b !! "price")) = true
     ∧ gt_zero (b !! "price") = true
     ∧ Validator.isBoolean (toString (b !! "availability")) = true)
  ∧ (body_errors put_product_route b = []
     → is_Some (b !! "name") ∧ is_Some (b !! "price")
       ∧ is_Some (b !! "availability")).
Proof.
  assert (body_errors put_product_route b = []
          ↔ toString (b !! "name") ≠ ""
            ∧ Validator.isNumeric (toString (b !! "price")) = true
            ∧ gt_zero (b !! "price") = true
            ∧ Validator.isBoolean (toString (b !! "availability")) = true) as Hiff.
  { rewrite <- (put_body_errors ∅). cbn zeta.
    rewrite !app_nil, name_chain_passes, price_chain_passes,
      availability_chain_passes. tauto. }
  split; [done |]. rewrite Hiff. intros (Hn & Hp & _ & Ha).
  destruct (b !! "name"), (b !! "price"), (b !! "availability"); try done;
    split_and!; eauto.
Qed.

(** X13.  PUT is a full replace: when it is answered 200, the row under
    the id the segment denotes is overwritten with the name, the price and
    the availability of the body, as the store reads them (none is kept
    from the row that was stored), and a GET of the same id that follows
    is answered with that row.  The payload of the PUT itself is the
    instance as the body updated it. *)
Theorem put_replaces_every_field (segment : string) (b b' : gmap string JValue)
    (w w1 : World) (res : Response) :
  server {| http_method := PUT; http_path := [segment]; http_body := b |} w
  = (w1, Fulfilled (Some res)) →
  status res = 200 →
  ∃ p,
    json res = data_updated p b
    ∧ parse_int segment = Some (id p)
    ∧ b !! "name" ≫= as_text = Some (name p)
    ∧ b !! "price" ≫= as_number = Some (price p)
    ∧ b !! "availability" ≫= as_boolean = Some (availability p)
    ∧ is_Some (table w !! id p)
    ∧ table w1 = <[id p := columns p]> (table w)
    ∧ (server {| http_method := GET; http_path := [segment]; http_body := b' |} w1).2
      = Fulfilled (Some {| status := 200; json := data_product p |}).
Proof.
  intros Hrun Hstatus. apply serves_of_run in Hrun.
  inversion Hrun as [ | | | | | | | ? ? ? ? ? ? Hread | | | ? k c c' ? ? Hk Hval Hrow Hrep | | | ];
    subst; try discriminate Hstatus; [by destruct Hread |].
  pose proof (table_lookup_in_range _ _ _ Hrow) as Hrange.
  exists (instance k c').
  apply put_accepts in Hval as ([vn Hn] & [vp Hp] & [va Ha]).
  unfold replaced_columns, assigned in Hrep. rewrite Hn, Hp, Ha in Hrep.
  rewrite Hn, Hp, Ha. cbn [mbind option_bind].
  destruct (as_text vn) as [n|]; [| done].
  destruct (as_number vp) as [pr|]; [| done].
  destruct (as_boolean va) as [a|]; [| done].
  cbn in Hrep. injection Hrep as <-.
  cbn [instance id name price availability col_name col_price col_availability
       columns json].
  rewrite table_after_insert by done.
  split_and!; try done.
  rewrite (server_GET_id _ k) by done. unfold bind.
  rewrite (getProductById_found _ segment k
             {| col_name := n; col_price := pr; col_availability := a |});
    [done | apply lookup_singleton_eq | done |].
  rewrite table_after_insert by done. apply lookup_insert_eq.
Qed.

(** ** Round trip *)

(** X14.  What POST stores, GET returns: when POST [/] is answered 201 with
    a product, its id was free before, and a GET of that id that follows is
    answered 200 with the same product. *)
Theorem created_product_is_found (segment : string) (b b' : gmap string JValue)
    (w w1 : World) (p : Product) :
  server {| http_method := POST; http_path := []; http_body := b |} w
  = (w1, Fulfilled (Some {| status := 201; json := data_product p |})) →
  parse_int segment = Some (id p) →
  table w !! id p = None
  ∧ (server {| http_method := GET; http_path := [segment]; http_body := b' |} w1).2
    = Fulfilled (Some {| status := 200; json := data_product p |}).
Proof.
  intros Hrun Hk. apply serves_of_run in Hrun. inversion Hrun; subst; clear Hrun.
  match goal with H : Product_create _ _ = _ |- _ =>
    apply Product_create_world in H as (_ & _ & Hfree & Ht) end.
  split; [done |].
  rewrite (server_GET_id _ (id p)) by done. unfold bind.
  rewrite (getProductById_found _ segment (id p) (columns p))
    by (done || apply lookup_singleton_eq || (rewrite Ht; apply lookup_insert_eq)).
  cbn. by rewrite instance_columns.
Qed.

(** ** Requests that carry no data *)

(** X15.  GET, PATCH and DELETE never read the body: whatever the path and
    the state of the store, two requests that differ in their bodies only
    have the same outcome and leave the same world. *)
Theorem body_is_ignored (m : Method) (segments : list string)
    (b b' : gmap string JValue) (w : World) :
  m = GET ∨ m = PATCH ∨ m = DELETE →
  server {| http_method := m; http_path := segments; http_body := b |} w
  = server {| http_method := m; http_path := segments; http_body := b' |} w.
Proof.
  intros Hm.
  assert (match m, segments with
          | (GET | POST | HEAD), []
          | (GET | PUT | PATCH | DELETE | HEAD), [String _ _] => False
          | _, _ => True
          end →
          server {| http_method := m; http_path := segments; http_body := b |} w
          = server {| http_method := m; http_path := segments; http_body := b' |} w)
    as Hunrouted.
  { intros Hshape. unfold server.
    by rewrite !dispatch_unmatched by by apply unrouted_shapes. }
  destruct segments as [|[|c s] [|? ?]];
    try (apply Hunrouted; by destruct Hm as [-> | [-> | ->]]).
  - destruct Hm as [-> | [-> | ->]]; [| by apply Hunrouted..].
    by resolve_route; symmetry; resolve_route.
  - destruct (Validator.isInt (String c s)) eqn:Hint.
    + destruct (isInt_parse_int _ Hint) as [k Hk].
      destruct Hm as [-> | [-> | ->]].
      * by rewrite !(server_GET_id _ k).
      * by rewrite !(server_PATCH_id _ k).
      * by rewrite !(server_DELETE_id _ k).
    + destruct Hm as [-> | [-> | ->]]; by rewrite !server_invalid_id.
Qed.

(** ** The entries of a 400 *)

Lemma run_chain_messages (chain : ValidationChain) (req : Request) :
  msg <$> run_chain chain req `sublist_of` message <$> rules chain.
Proof.
  unfold run_chain. induction (rules chain) as [|r rs IH]; [done |].
  cbn [flat_map]. rewrite fmap_app, fmap_cons. unfold rule_errors at 1.
  destruct (fails _ _); cbn.
  - by apply sublist_skip.
  - by apply sublist_cons.
Qed.

(** X16.  For a body whose fields are JSON scalars or missing (the values
    of [JValue]; an array is checked element by element and can be
    reported more than once), the messages of a 400 come in the order of
    the route's rules and each rule speaks at most once: the messages are
    a non-empty
    subsequence of the id message followed by the messages of the name
    rule, the three price rules and the availability rule (on PUT), of the
    name and price messages (on POST), and are the id message alone on
    GET, HEAD, PATCH and DELETE.  So a 400 carries at most six entries, at
    most four on POST. *)
Theorem error_messages_in_rule_order (r : HttpRequest) (w w' : World)
    (es : list ValidationError) :
  server r w = (w', Fulfilled (Some {| status := 400; json := errors_list es |})) →
  es ≠ []
  ∧ msg <$> es `sublist_of`
      match http_method r with
      | POST => ["El nombre del producto no puede ir vacio"; "Valor no válido";
                 "El nombre del producto no puede ir vacio"; "Precio no valido"]
      | PUT => ["ID no valido"; "El nombre del producto no puede ir vacio";
                "Valor no válido"; "El nombre del producto no puede ir vacio";
                "Precio no valido"; "El campo no puede ir vacio"]
      | _ => ["ID no valido"]
      end.
Proof.
  assert (∀ b, msg <$> body_errors post_product_route b `sublist_of`
            ["El nombre del producto no puede ir vacio"; "Valor no válido";
             "El nombre del producto no puede ir vacio"; "Precio no valido"])
    as Hpost.
  { intros b. rewrite <- (post_body_errors ∅). cbn zeta. rewrite fmap_app.
    apply (sublist_app _ [_] _ [_; _; _]); apply run_chain_messages. }
  assert (∀ b, msg <$> body_errors put_product_route b `sublist_of`
            ["El nombre del producto no puede ir vacio"; "Valor no válido";
             "El nombre del producto no puede ir vacio"; "Precio no valido";
             "El campo no puede ir vacio"]) as Hput.
  { intros b. rewrite <- (put_body_errors ∅). cbn zeta. rewrite !fmap_app.
    apply (sublist_app _ [_; _; _; _] _ [_]); [| apply run_chain_messages].
    apply (sublist_app _ [_] _ [_; _; _]); apply run_chain_messages. }
  intros Hrun. apply serves_of_run in Hrun. inversion Hrun; subst; clear Hrun.
  - split; [done |]. cbn [http_method]. rewrite fmap_cons. cbn [msg invalid_id_entry].
    destruct m; try done; case_decide; try done; apply sublist_skip;
      (apply sublist_nil_l || apply Hput).
  - split; [done |]. cbn [http_method].
    match goal with H : body_errors _ _ = _ |- _ => rewrite <- H end. apply Hpost.
  - split; [done |]. cbn [http_method]. apply sublist_cons.
    match goal with H : body_errors _ _ = _ |- _ => rewrite <- H end. apply Hput.
Qed.

(** ** The invariant the rules maintain *)

(** The row built from a body that passed the name and price rules. *)
Lemma accepted_fields_valid (b : gmap string JValue) (n : string) (pr : number)
    (a : bool) :
  toString (b !! "name") ≠ "" →
  Validator.isNumeric (toString (b !! "price")) = true →
  gt_zero (b !! "price") = true →
  b !! "name" ≫= as_text = Some n →
  b !! "price" ≫= as_number = Some pr →
  valid_row {| col_name := n; col_price := pr; col_availability := a |}.
Proof.
  intros Hname Hnum Hprice Hn Hpr.
  destruct (b !! "name") as [vn|]; [| done].
  destruct (b !! "price") as [vp|]; [| done].
  cbn in Hn, Hpr. split; cbn.
  - by rewrite (as_text_toString _ _ Hn).
  - by rewrite <- (as_number_gt_zero _ _ Hnum Hpr).
Qed.

(** X17.  The rules keep the table valid: if every stored row has a name
    that is not empty and a price greater than zero, the same holds after
    any request, whatever its method, path, body and outcome.  Nothing
    reaches the table through the router without having passed the name
    and price rules. *)
Theorem requests_keep_rows_valid (r : HttpRequest) (w : World) :
  valid_table (table w) → valid_table (table (server r w).1).
Proof.
  intros Hvalid. serves_cases r w Hs; cbn; tables; try done.
  - match goal with H : Product_create _ _ = _ |- _ =>
      pose proof (Product_create_fulfilled _ _ _ _ H)
        as (Hn & Hpr & _ & _ & _ & -> & _ & _)
    end.
    match goal with H : body_errors _ _ = [] |- _ =>
      apply post_accepts in H as (Hname & Hnum & Hprice) end.
    apply map_Forall_insert_2; [| done].
    by apply (accepted_fields_valid b).
  - match goal with H : Product_create _ _ = _ |- _ =>
      by apply Product_create_world in H as (_ & _ & -> & _) end.
  - match goal with H : body_errors _ _ = [] |- _ =>
      pose proof (proj1 (proj1 (put_accepts _)) H) as (Hname & Hnum & Hprice & _);
      apply put_accepts in H as ([vn Hn] & [vp Hp] & _) end.
    apply map_Forall_insert_2; [| done].
    match goal with H : replaced_columns _ _ = Some _ |- _ =>
      unfold replaced_columns, assigned in H; rewrite Hn, Hp in H;
      rename H into Hrep end.
    destruct (as_text vn) as [n|] eqn:Hasn; [| done].
    destruct (as_number vp) as [pr|] eqn:Hasp; [| done].
    cbn in Hrep.
    destruct (match b !! "availability" with Some v => as_boolean v
              | None => Some _ end) as [a|]; [| done].
    cbn in Hrep. injection Hrep as <-.
    apply (accepted_fields_valid b); try done; by rewrite ?Hn, ?Hp.
  - apply map_Forall_insert_2; [| done].
    match goal with H : table _ !! _ = Some _ |- _ =>
      by apply (Hvalid _ _ H) end.
  - by apply map_Forall_delete.
Qed.

(** ** Spellings of an id *)

Lemma parse_int_digits (s : string) :
  digits1 s = true → parse_int s = Some (digits_value 0 s).
Proof.
  destruct s as [|c r]; [discriminate |]. intros Hs.
  assert (is_digit c = true) as Hc by (cbn in Hs; by destruct (is_digit c)).
  unfold parse_int, strip_sign.
  assert (is_sign c = false ∧ c ≠ "-"%char) as [-> Hminus].
  { destruct c as [[] [] [] [] [] [] [] []]; done. }
  rewrite Hs.
  destruct c as [[] [] [] [] [] [] [] []]; done.
Qed.

Lemma parse_int_plus (s : string) :
  digits1 s = true → parse_int ("+" +:+ s) = Some (digits_value 0 s).
Proof.
  intros Hs. unfold parse_int.
  change (strip_sign ("+" +:+ s)) with s. by rewrite Hs.
Qed.

Lemma parse_int_zero (s : string) :
  digits1 s = true → parse_int ("0" +:+ s) = Some (digits_value 0 s).
Proof.
  intros Hs. unfold parse_int.
  destruct s as [|c r]; [discriminate |].
  change (strip_sign ("0" +:+ String c r)) with (String "0" (String c r)).
  change (digits1 (String "0" (String c r))) with (digits1 (String c r)).
  by rewrite Hs.
Qed.

(** GET answers two segments that denote the same integer alike. *)
Lemma same_integer_same_answer (s1 s2 : string) (k : Z) (b : gmap string JValue)
    (w : World) :
  parse_int s1 = Some k →
  parse_int s2 = Some k →
  (server {| http_method := GET; http_path := [s1]; http_body := b |} w).2
  = (server {| http_method := GET; http_path := [s2]; http_body := b |} w).2.
Proof.
  intros H1 H2. rewrite (server_GET_id _ k), (server_GET_id _ k) by done.
  unfold bind.
  destruct (decide (in_integer_range k)) as [Hrange | Hrange].
  - destruct (table w !! k) as [c|] eqn:Hrow.
    + by rewrite (getProductById_found _ s1 k c), (getProductById_found _ s2 k c)
        by (done || apply lookup_singleton_eq).
    + by rewrite (getProductById_not_found _ s1 k), (getProductById_not_found _ s2 k)
        by (done || apply lookup_singleton_eq).
  - by rewrite (getProductById_out_of_range _ s1 k),
      (getProductById_out_of_range _ s2 k)
      by (done || apply lookup_singleton_eq).
Qed.

(** X18.  The id segment is read as an integer, so a product can be
    addressed by more than one spelling of its id: its digits, its digits
    after a plus sign, its digits after a zero.  GET answers the three
    alike, and when a row is stored under the integer the digits denote,
    each of them is answered 200 with that product. *)
Theorem spellings_of_an_id (digits : string) (b : gmap string JValue)
    (w : World) :
  digits1 digits = true →
  let answer (segment : string) :=
    (server {| http_method := GET; http_path := [segment]; http_body := b |} w).2 in
  answer ("+" +:+ digits) = answer digits
  ∧ answer ("0" +:+ digits) = answer digits
  ∧ ∀ c, table w !! digits_value 0 digits = Some c →
         Forall (λ segment,
                   answer segment
                   = Fulfilled (Some {| status := 200;
                                        json := data_product
                                          (instance (digits_value 0 digits) c) |}))
                [digits; "+" +:+ digits; "0" +:+ digits].
Proof.
  intros Hdigits answer. unfold answer. clear answer.
  pose proof (parse_int_digits _ Hdigits) as Hk.
  pose proof (parse_int_plus _ Hdigits) as Hplus.
  pose proof (parse_int_zero _ Hdigits) as Hzero.
  split_and!.
  - by apply (same_integer_same_answer _ _ (digits_value 0 digits)).
  - by apply (same_integer_same_answer _ _ (digits_value 0 digits)).
  - intros c Hrow.
    assert (∀ segment, parse_int segment = Some (digits_value 0 digits) →
              (server {| http_method := GET; http_path := [segment];
                         http_body := b |} w).2
              = Fulfilled (Some {| status := 200;
                                   json := data_product
                                     (instance (digits_value 0 digits) c) |}))
      as Hfound.
    { intros segment Hsegment.
      rewrite (server_GET_id _ (digits_value 0 digits)) by done. unfold bind.
      by rewrite (getProductById_found _ segment (digits_value 0 digits) c)
        by (done || apply lookup_singleton_eq). }
    repeat apply Forall_cons_2; [| | | apply Forall_nil_2]; by apply Hfound.
Qed.

(** ** Start-up *)

(** X20.  [connectDB] never rejects, whatever [db.authenticate()] does.
    When the authentication fails, the error is logged, then a line that
    contains the message, and [db.sync()] is not started; when it
    succeeds, [db.sync()] is started and nothing is logged. *)
Theorem connectDB_catches (opening closing : string) (failure : option string) :
  (connectDB opening closing failure).2 = inr tt
  ∧ (db_sync ∈ (connectDB opening closing failure).1 ↔ failure = None)
  ∧ ((∃ text, console_log text ∈ (connectDB opening closing failure).1)
     ↔ is_Some failure)
  ∧ ∀ error, failure = Some error →
      (connectDB opening closing failure).1
      = [db_authenticate; console_log error;
         console_log (opening +:+ "Hubo un error al conectar a la Base de datos"
                      +:+ closing)].
Proof.
  destruct failure as [error|]; cbn; split_and!; try done.
  - split; [| done]. intros Hin.
    repeat (apply elem_of_cons in Hin as [Hin | Hin]; [discriminate |]).
    by apply elem_of_nil in Hin.
  - split; [by eauto |]. intros _. eexists.
    apply list_elem_of_further, list_elem_of_here.
  - by intros ? [= ->].
  - split; [done |]. intros _. apply list_elem_of_further, list_elem_of_here.
  - split; [| by intros []]. intros [text Hin].
    repeat (apply elem_of_cons in Hin as [Hin | Hin]; [discriminate |]).
    by apply elem_of_nil in Hin.
Qed.

End Properties.

(** * The properties at concrete requests *)

#[global] Existing Instance Z_number.
#[global] Existing Instance Z_columns.

Lemma invalid_id_rejected_witness :
  server (http GET ["not-valid-url"] ∅) empty_world
  = (empty_world,
     Fulfilled (Some {| status := 400;
                        json := errors_list [invalid_id_entry "not-valid-url"] |})).
Proof.
  apply (invalid_id_rejected GET "not-valid-url" ∅ empty_world);
    [discriminate | discriminate | reflexivity].
Defined.

Lemma patch_toggles_availability_witness :
  parse_int "1" = Some 1
  ∧ table one_product_world !! 1 = Some monitor
  ∧ ∃ w1 p1,
      server (http PATCH ["1"] ∅) one_product_world
      = (w1, Fulfilled (Some {| status := 200; json := data_product p1 |}))
      ∧ availability p1 = false.
Proof.
  split; [reflexivity |]. split; [reflexivity |].
  destruct (patch_toggles_availability "1" 1 monitor ∅ one_product_world
              eq_refl eq_refl) as (w1 & w2 & p1 & p2 & H1 & H2 & _).
  exists w1, p1. split; [exact H1 | exact H2].
Defined.

Lemma get_missing_product_not_found_witness :
  server (http GET ["2000"] ∅) empty_world
  = (add_call (call_findByPk "2000") empty_world,
     Fulfilled (Some {| status := 404;
                        json := error_text "Producto no encontrado" |}))
  ∧ server (http GET ["2147483648"] ∅) empty_world
    = (add_call (call_findByPk "2147483648") empty_world,
       Rejected integer_out_of_range).
Proof.
  split.
  - refine (proj1 (proj1 (get_missing_product_not_found "2000" 2000 ∅ empty_world
                            eq_refl eq_refl) _)).
    unfold in_integer_range, INTEGER_MIN, INTEGER_MAX. lia.
  - refine (proj1 (proj2 (get_missing_product_not_found "2147483648" 2147483648
                            ∅ empty_world eq_refl eq_refl) _)).
    unfold in_integer_range, INTEGER_MIN, INTEGER_MAX. lia.
Defined.

Lemma delete_removes_product_witness :
  parse_int "1" = Some 1
  ∧ table one_product_world !! 1 = Some monitor
  ∧ ∃ w1,
      server (http DELETE ["1"] ∅) one_product_world
      = (w1, Fulfilled (Some {| status := 200;
                                json := data_text "Producto Eliminado" |}))
      ∧ (server (http GET ["1"] ∅) w1).2
        = Fulfilled (Some {| status := 404;
                             json := error_text "Producto no encontrado" |}).
Proof.
  split; [reflexivity |]. split; [reflexivity |].
  destruct (delete_removes_product "1" 1 monitor ∅ one_product_world
              eq_refl eq_refl) as (w1 & H1 & _ & _ & H4).
  exists w1. split; [exact H1 | exact (H4 ∅)].
Defined.

Lemma put_missing_fields_five_errors_witness :
  ∃ es,
    server (http PUT ["1"] ∅) one_product_world
    = (one_product_world,
       Fulfilled (Some {| status := 400; json := errors_list es |}))
    ∧ length es = 5%nat.
Proof.
  eexists. split.
  - apply (put_missing_fields_five_errors "1" ∅ one_product_world);
      reflexivity.
  - reflexivity.
Defined.

Lemma patch_changes_availability_only_witness :
  server (http PATCH ["1"] {[ "availability" := JStr "no" ]}) one_product_world
  = server (http PATCH ["1"] ∅) one_product_world.
Proof.
  exact (proj1 (patch_changes_availability_only "1" 1 monitor ∅
                  {[ "availability" := JStr "no" ]} one_product_world
                  eq_refl eq_refl)).
Defined.

Lemma not_found_writes_nothing_witness :
  table (server (http DELETE ["10"] ∅) one_product_world).1
  = table one_product_world.
Proof.
  refine (proj1 (proj2 (not_found_writes_nothing
                          {| req_params := {[ "id" := "10" ]}; req_body := ∅ |}
                          "10" 10 one_product_world eq_refl eq_refl eq_refl)
                   DELETE ∅ _)).
  apply list_elem_of_further, list_elem_of_further, list_elem_of_here.
Defined.

Lemma create_forwards_whole_body_witness :
  body_errors post_product_route unavailable_mouse = []
  ∧ ∃ w1 p,
      server (http POST [] unavailable_mouse) empty_world
      = (w1, Fulfilled (Some {| status := 201; json := data_product p |}))
      ∧ availability p = false.
Proof.
  split; [reflexivity |].
  assert (server (http POST [] unavailable_mouse) empty_world
          = ((server (http POST [] unavailable_mouse) empty_world).1,
             Fulfilled (Some {| status := 201;
                                json := data_product
                                  (@Build_Product Z_number 1 "Mouse - TEST" 500
                                     false) |}))) as Hrun by reflexivity.
  destruct (proj2 (proj2 (create_forwards_whole_body unavailable_mouse empty_world
                            eq_refl)) _ _ Hrun)
    as (p & Hres & _ & _ & _ & _ & _ & Hav & _).
  eexists _, p. split.
  - exact (f_equal (λ res, (_, Fulfilled (Some res))) Hres).
  - exact (Hav false eq_refl).
Defined.

(** ** Where the code departs from the specification's wording *)

(** C1, as stated, fails.  GET [/not-valid-url] is answered 400 with one
    entry, and its message is ["ID no valido"], not ["invalid id"]; and PUT
    [/not-valid-url] with an empty body is answered 400 with six entries,
    not one. *)
Lemma invalid_id_claim_counterexample :
  Validator.isInt "not-valid-url" = false
  ∧ (∃ e, (server (http GET ["not-valid-url"] ∅) empty_world).2
          = Fulfilled (Some {| status := 400; json := errors_list [e] |})
          ∧ msg e = "ID no valido"
          ∧ msg e ≠ "invalid id")
  ∧ (∃ es, (server (http PUT ["not-valid-url"] ∅) empty_world).2
           = Fulfilled (Some {| status := 400; json := errors_list es |})
           ∧ length es = 6%nat).
Proof.
  split; [reflexivity |]. split.
  - eexists. split; [reflexivity |]. split; [reflexivity | discriminate].
  - eexists. split; reflexivity.
Qed.

(** C3, as stated, fails.  GET [/2000] on a store without rows is answered
    404 with [{error: "Producto no encontrado"}], which is not
    [{error: "Product not found"}]; and GET [/2147483648], an integer id
    that matches no row either, is not answered at all: the key column
    cannot hold the integer and the store rejects the lookup. *)
Lemma not_found_body_counterexample :
  parse_int "2000" = Some 2000
  ∧ table empty_world !! 2000 = None
  ∧ (server (http GET ["2000"] ∅) empty_world).2
    = Fulfilled (Some {| status := 404;
                         json := error_text "Producto no encontrado" |})
  ∧ (server (http GET ["2000"] ∅) empty_world).2
    ≠ Fulfilled (Some {| status := 404;
                         json := error_text "Product not found" |})
  ∧ parse_int "2147483648" = Some 2147483648
  ∧ table empty_world !! 2147483648 = None
  ∧ (server (http GET ["2147483648"] ∅) empty_world).2
    = Rejected integer_out_of_range.
Proof.
  split_and!;
    [reflexivity | reflexivity | reflexivity | discriminate
    | reflexivity | reflexivity | reflexivity].
Qed.

(** C9, as stated, fails.  The integer 99999999999999999999 names no row
    of a store that holds product 1, and PUT, PATCH and DELETE on
    [/99999999999999999999] are not answered 404: the key column cannot
    hold the integer, the store rejects the lookup and the request ends
    with a rejected promise. *)
Lemma not_found_answer_counterexample :
  let answer (m : Method) :=
    (server (http m ["99999999999999999999"] (curved_monitor 300))
       one_product_world).2 in
  parse_int "99999999999999999999" = Some 99999999999999999999
  ∧ table one_product_world !! 99999999999999999999 = None
  ∧ answer PUT = Rejected integer_out_of_range
  ∧ answer PATCH = Rejected integer_out_of_range
  ∧ answer DELETE = Rejected integer_out_of_range
  ∧ ∀ m, m ∈ [PUT; PATCH; DELETE] →
         answer m ≠ Fulfilled (Some {| status := 404;
                                       json := error_text "Producto no encontrado" |}).
Proof.
  intros answer.
  assert (answer PUT = Rejected integer_out_of_range) as Hput by reflexivity.
  assert (answer PATCH = Rejected integer_out_of_range) as Hpatch by reflexivity.
  assert (answer DELETE = Rejected integer_out_of_range) as Hdelete
    by reflexivity.
  split_and!; [reflexivity | reflexivity | exact Hput | exact Hpatch
              | exact Hdelete |].
  intros m Hm. rewrite !elem_of_cons, elem_of_nil in Hm.
  destruct Hm as [-> | [-> | [-> | []]]]; congruence.
Qed.

(** C4, as stated, fails.  DELETE [/1] on a store that holds product 1 is
    answered 200 with [{data: "Producto Eliminado"}], which is not
    [{data: "Product deleted"}]. *)
Lemma delete_payload_counterexample :
  table one_product_world !! 1 = Some monitor
  ∧ (server (http DELETE ["1"] ∅) one_product_world).2
    = Fulfilled (Some {| status := 200; json := data_text "Producto Eliminado" |})
  ∧ (server (http DELETE ["1"] ∅) one_product_world).2
    ≠ Fulfilled (Some {| status := 200; json := data_text "Product deleted" |}).
Proof. split_and!; [reflexivity | reflexivity | discriminate]. Qed.

(** ** The cases of the repository's test suite *)

Example test_post_price_zero :
  messages (server (http POST [] (mouse 0)) empty_world).2 = ["Precio no valido"].
Proof. reflexivity. Qed.

Example test_post_price_not_numeric :
  messages (server (http POST []
                      {[ "name" := JStr "Mouse - TEST"; "price" := JStr "hola" ]})
              empty_world).2
  = ["Valor no válido"; "Precio no valido"].
Proof. reflexivity. Qed.

Example test_post_creates :
  (server (http POST [] (mouse 500)) empty_world).2
  = Fulfilled (Some {| status := 201;
                       json := data_product
                         {| id := 1; name := "Mouse - TEST"; price := 500;
                            availability := true |} |}).
Proof. reflexivity. Qed.

Example test_put_invalid_id :
  messages (server (http PUT ["not-valid-url"] (curved_monitor 300))
              one_product_world).2
  = ["ID no valido"].
Proof. reflexivity. Qed.

Example test_put_negative_price :
  messages (server (http PUT ["1"] (curved_monitor (-300))) one_product_world).2
  = ["Precio no valido"].
Proof. reflexivity. Qed.

Example test_put_missing_product :
  (server (http PUT ["2000"] (curved_monitor 300)) one_product_world).2
  = Fulfilled (Some {| status := 404;
                       json := error_text "Producto no encontrado" |}).
Proof. reflexivity. Qed.

Example test_put_updates :
  (server (http PUT ["1"] (curved_monitor 300)) one_product_world).2
  = Fulfilled (Some {| status := 200;
                       json := data_updated
                         {| id := 1; name := "monitor curvo"; price := 300;
                            availability := true |}
                         (curved_monitor 300) |}).
Proof. reflexivity. Qed.

Example test_patch_toggles :
  (server (http PATCH ["1"] ∅) one_product_world).2
  = Fulfilled (Some {| status := 200;
                       json := data_product
                         {| id := 1; name := "Monitor Curvo 27 Pulgadas";
                            price := 300; availability := false |} |}).
Proof. reflexivity. Qed.

Example test_get_lists_one_product :
  (server (http GET [] ∅) one_product_world).2
  = Fulfilled (Some {| status := 200;
                       json := data_products [instance 1 monitor] |}).
Proof. reflexivity. Qed.

(** ** Requests the test suite does not send *)

Example head_lists_the_products :
  (server (http HEAD [] ∅) one_product_world).2
  = Fulfilled (Some {| status := 200;
                       json := data_products [instance 1 monitor] |}).
Proof. reflexivity. Qed.

Example get_largest_key :
  (server (http GET ["2147483647"] ∅) one_product_world).2
  = Fulfilled (Some {| status := 404;
                       json := error_text "Producto no encontrado" |}).
Proof. reflexivity. Qed.

Example get_past_the_largest_key :
  (server (http GET ["2147483648"] ∅) one_product_world).2
  = Rejected integer_out_of_range.
Proof. reflexivity. Qed.

Example delete_below_the_smallest_key :
  (server (http DELETE ["-2147483649"] ∅) one_product_world).2
  = Rejected integer_out_of_range.
Proof. reflexivity. Qed.

(** A PUT whose price and availability are strings: the payload shows them
    as the body gave them, the row holds them as the columns read them,
    and the GET that follows shows the row. *)
Example put_with_strings :
  let b : gmap string (@JValue Z_number) :=
    {[ "name" := JStr "Monitor"; "price" := JStr "450";
       "availability" := JStr "1" ]} in
  let stored := @Build_Product Z_number 1 "Monitor" 450 true in
  (server (http PUT ["1"] b) one_product_world).2
  = Fulfilled (Some {| status := 200; json := data_updated stored b |})
  ∧ (server (http GET ["1"] ∅) (server (http PUT ["1"] b) one_product_world).1).2
    = Fulfilled (Some {| status := 200; json := data_product stored |}).
Proof. split; reflexivity. Qed.

(** A POST whose name is a boolean and whose availability is ["no"]. *)
Example post_with_other_types :
  let b : gmap string (@JValue Z_number) :=
    {[ "name" := JBool true; "price" := @JNum Z_number 20;
       "availability" := JStr "no" ]} in
  (server (http POST [] b) empty_world).2
  = Fulfilled (Some {| status := 201;
                       json := data_product
                         (@Build_Product Z_number 1 "true" 20 false) |}).
Proof. reflexivity. Qed.

(** * The further properties at concrete requests *)

Lemma responses_by_method_witness :
  let res := {| status := 200; json := data_text "Producto Eliminado" |} in
  (status res = 400 ∧ ∃ e es, json res = errors_list (e :: es))
  ∨ (status res = 404 ∧ json res = error_text "Producto no encontrado"
     ∧ DELETE ≠ POST)
  ∨ (status res = 201 ∧ DELETE = POST ∧ ∃ p, json res = data_product p)
  ∨ (status res = 200 ∧ json res = data_text "Producto Eliminado").
Proof.
  exact (responses_by_method (http DELETE ["1"] ∅) one_product_world _ _ eq_refl).
Defined.

Lemma refusals_leave_the_store_witness :
  (server (http PUT ["1"] ∅) one_product_world).1 = one_product_world.
Proof.
  exact (proj1 (refusals_leave_the_store (http PUT ["1"] ∅) one_product_world
                  _ _ eq_refl) eq_refl).
Defined.

Lemma get_is_read_only_witness :
  table (server (http HEAD ["1"] ∅) one_product_world).1 = table one_product_world
  ∧ sequence (server (http HEAD ["1"] ∅) one_product_world).1
    = sequence one_product_world.
Proof.
  destruct (get_is_read_only (http HEAD ["1"] ∅) one_product_world
              (or_intror eq_refl)) as (Htable & Hsequence & _).
  split; [exact Htable | exact Hsequence].
Defined.

Lemma rejections_witness :
  (server (http GET ["2147483648"] ∅) one_product_world).2
  = Rejected integer_out_of_range
  ∧ integer_out_of_range ≠ invalid_integer_text.
Proof.
  split; [reflexivity |].
  exact (proj1 (rejections (http GET ["2147483648"] ∅) one_product_world
                  integer_out_of_range eq_refl)).
Defined.

Lemma updates_keep_the_rows_witness :
  dom (table (server (http PATCH ["1"] ∅) one_product_world).1)
  = dom (table one_product_world).
Proof.
  exact (proj1 (updates_keep_the_rows (http PATCH ["1"] ∅) one_product_world
                  (or_intror eq_refl))).
Defined.

Lemma delete_touches_one_row_witness :
  table (server (http DELETE ["1"] ∅)
           (server (http DELETE ["1"] ∅) one_product_world).1).1
  = table (server (http DELETE ["1"] ∅) one_product_world).1.
Proof.
  destruct (delete_touches_one_row (http DELETE ["1"] ∅) one_product_world eq_refl)
    as (_ & _ & _ & Hagain).
  exact Hagain.
Defined.

Lemma create_adds_at_most_one_row_witness :
  table one_product_world
  ⊆ table (server (http POST [] (mouse 500)) one_product_world).1.
Proof.
  exact (proj1 (create_adds_at_most_one_row (http POST [] (mouse 500))
                  one_product_world eq_refl)).
Defined.

Lemma put_is_idempotent_witness :
  table (server (http PUT ["1"] (curved_monitor 300))
           (server (http PUT ["1"] (curved_monitor 300)) one_product_world).1).1
  = table (server (http PUT ["1"] (curved_monitor 300)) one_product_world).1.
Proof.
  assert (server (http PUT ["1"] (curved_monitor 300)) one_product_world
          = ((server (http PUT ["1"] (curved_monitor 300)) one_product_world).1,
             Fulfilled (Some {| status := 200;
                                json := data_updated
                                  (@Build_Product Z_number 1 "monitor curvo" 300 true)
                                          (curved_monitor 300) |})))
    as Hrun.
  { reflexivity. }
  exact (proj2 (put_is_idempotent "1" (curved_monitor 300) one_product_world
                  _ _ Hrun eq_refl)).
Defined.

Lemma put_replaces_every_field_witness :
  (server (http GET ["1"] ∅)
     (server (http PUT ["1"] (curved_monitor 300)) one_product_world).1).2
  = Fulfilled (Some {| status := 200;
                       json := data_product
                         {| id := 1; name := "monitor curvo"; price := 300;
                            availability := true |} |}).
Proof.
  assert (server (http PUT ["1"] (curved_monitor 300)) one_product_world
          = ((server (http PUT ["1"] (curved_monitor 300)) one_product_world).1,
             Fulfilled (Some {| status := 200;
                                json := data_updated
                                  (@Build_Product Z_number 1 "monitor curvo" 300 true)
                                  (curved_monitor 300) |})))
    as Hrun.
  { reflexivity. }
  destruct (put_replaces_every_field "1" (curved_monitor 300) ∅ one_product_world
              _ _ Hrun eq_refl)
    as (p & Hp & _ & _ & _ & _ & _ & _ & Hget).
  injection Hp as <-. exact Hget.
Defined.

Lemma created_product_is_found_witness :
  (server (http GET ["1"] ∅) (server (http POST [] (mouse 500)) empty_world).1).2
  = Fulfilled (Some {| status := 200;
                       json := data_product
                         {| id := 1; name := "Mouse - TEST"; price := 500;
                            availability := true |} |}).
Proof.
  exact (proj2 (created_product_is_found "1" (mouse 500) ∅ empty_world
                  _ _ eq_refl eq_refl)).
Defined.

Lemma body_is_ignored_witness :
  server (http DELETE ["1"] ∅) one_product_world
  = server (http DELETE ["1"] unavailable_mouse) one_product_world.
Proof.
  exact (body_is_ignored DELETE ["1"] ∅ unavailable_mouse one_product_world
           (or_intror (or_intror eq_refl))).
Defined.

Lemma error_messages_in_rule_order_witness :
  messages (server (http POST [] (mouse 0)) empty_world).2
  `sublist_of` ["El nombre del producto no puede ir vacio"; "Valor no válido";
                "El nombre del producto no puede ir vacio"; "Precio no valido"].
Proof.
  exact (proj2 (error_messages_in_rule_order (http POST [] (mouse 0)) empty_world
                  _ _ eq_refl)).
Defined.

Lemma requests_keep_rows_valid_witness :
  valid_table (table one_product_world)
  ∧ valid_table (table (server (http PUT ["1"] (curved_monitor 300))
                          one_product_world).1).
Proof.
  assert (table one_product_world = {[ 1 := monitor ]}) as Htable
    by reflexivity.
  assert (valid_table (table one_product_world)) as Hvalid.
  { rewrite Htable. apply map_Forall_singleton.
    split; [discriminate | reflexivity]. }
  split; [exact Hvalid |].
  exact (requests_keep_rows_valid (http PUT ["1"] (curved_monitor 300))
           one_product_world Hvalid).
Defined.

Lemma spellings_of_an_id_witness :
  Forall (λ segment,
            (server (http GET [segment] ∅) seventh_product_world).2
            = Fulfilled (Some {| status := 200;
                                 json := data_product (instance 7 monitor) |}))
         ["7"; "+7"; "07"].
Proof.
  exact (proj2 (proj2 (spellings_of_an_id "7" ∅ seventh_product_world eq_refl))
           monitor eq_refl).
Defined.
